(** * ps_inspect: a shallow embedding of the TrouSerS persistent-storage
      inspector, and of the thread manager declared in tcsd.h.

    The C program keeps one global 1024-byte buffer, reads the store through
    a [FILE *] and prints with [printf].  The embedding threads an explicit
    state (buffer, unread part of the stream, what was written to stdout and
    to stderr) through a small monad whose outcomes are a normal return, an
    access outside the global buffer (undefined behaviour in C), or a loop
    that does not end. *)

From Stdlib Require Import ZArith String List Bool Lia.
From Stdlib Require Import Strings.Byte.
Import ListNotations.
Open Scope string_scope.
Open Scope list_scope.
Open Scope Z_scope.

(** ** Machine integers and bytes *)

Definition BYTE := Byte.byte.

Definition byte_val (b : BYTE) : Z := Z.of_N (Byte.to_N b).

(** [UINT32] arithmetic wraps modulo 2^32. *)
Definition wrap32 (z : Z) : Z := z mod 4294967296.

(** Conversion of a [UINT32] to [int] at a call such as [printkey_0(i, f)]. *)
Definition int_of_u32 (z : Z) : Z :=
  if z <? 2147483648 then z else z - 4294967296.

(** The program reads integers with casts such as [*(UINT16 * )&buf[32]]: the
    bytes are combined in the byte order of the host. *)
Inductive endian : Type := LittleEndian | BigEndian.

Fixpoint le_val (l : list BYTE) : Z :=
  match l with
  | [] => 0
  | b :: l' => byte_val b + 256 * le_val l'
  end.

Definition host_val (host : endian) (l : list BYTE) : Z :=
  match host with
  | LittleEndian => le_val l
  | BigEndian => le_val (rev l)
  end.

Definition sizeof_TSS_UUID : Z := 16.
Definition sizeof_UINT32 : Z := 4.
Definition sizeof_UINT16 : Z := 2.
Definition sizeof_buf : Z := 1024.

(** ** Program state *)

Inductive arg : Type :=
| Int (z : Z)
| Str (s : string)
| StrError.                       (* strerror(errno) *)

(** One call of [printf] or [fprintf]: the format as it stands in the source
    (with the ["PS "] prefix that the PRINT macro adds) and its arguments. *)
Inductive event : Type :=
| Printf (fmt : string) (args : list arg).

Record state : Type := mkState {
  buf : list BYTE;      (* unsigned char buf[1024] *)
  stream : list BYTE;   (* what FILE *f has not delivered yet *)
  out : list event;     (* stdout *)
  err : list event      (* stderr *)
}.

Inductive outcome (A : Type) : Type :=
| Ret (a : A) (s : state)
| Undefined                       (* access outside buf *)
| Diverges.                       (* a loop that never exits *)
Arguments Ret {A} a s.
Arguments Undefined {A}.
Arguments Diverges {A}.

Definition M (A : Type) : Type := state -> outcome A.

Definition ret {A} (a : A) : M A := fun s => Ret a s.

Definition bind {A B} (m : M A) (k : A -> M B) : M B :=
  fun s => match m s with
           | Ret a s' => k a s'
           | Undefined => Undefined
           | Diverges => Diverges
           end.

Notation "x <- c1 ;; c2" := (bind c1 (fun x => c2))
  (at level 61, c1 at next level, right associativity).
Notation "c1 ;;; c2" := (bind c1 (fun _ => c2))
  (at level 61, right associativity).

Definition diverges {A} : M A := fun _ => Diverges.
Definition get : M state := fun s => Ret s s.

Definition add_out (s : state) (evs : list event) : state :=
  mkState (buf s) (stream s) (out s ++ evs) (err s).

Definition add_err (s : state) (evs : list event) : state :=
  mkState (buf s) (stream s) (out s) (err s ++ evs).

Definition printf (fmt : string) (args : list arg) : M unit :=
  fun s => Ret tt (add_out s [Printf fmt args]).

(** PRINTERR *)
Definition PRINTERR (fmt : string) (args : list arg) : M unit :=
  fun s => Ret tt (add_err s [Printf fmt args]).

(** A computation that only ever appends to stdout. *)
Definition grows {A} (m : M A) : Prop :=
  forall s a s', m s = Ret a s' -> exists evs, out s' = out s ++ evs.

(** ** The buffer *)

(** [load b p n] is [b[p .. p+n-1]]; [store b p d] overwrites from [p] on. *)
Definition load (b : list BYTE) (p n : Z) : list BYTE :=
  firstn (Z.to_nat n) (skipn (Z.to_nat p) b).

Definition store (b : list BYTE) (p : Z) (d : list BYTE) : list BYTE :=
  firstn (Z.to_nat p) b ++ d ++ skipn (Z.to_nat p + length d) b.

(** [buf[idx]]: outside the array the behaviour is undefined. *)
Definition rd (idx : Z) : M Z :=
  fun s => if (0 <=? idx) && (idx <? Z.of_nat (length (buf s)))
           then match nth_error (buf s) (Z.to_nat idx) with
                | Some b => Ret (byte_val b) s
                | None => Undefined
                end
           else Undefined.

(** The integer that the [n] bytes from offset [p] on hold. *)
Definition load_int (host : endian) (b : list BYTE) (p n : Z) : Z :=
  host_val host (load b p n).

(** [memcpy(&buf[dst], &buf[src], n)].  The one call of the program copies
    between overlapping parts of [buf]; the bytes of the source as they were
    before the call arrive at the destination. *)
Definition memcpy (dst src n : Z) : M unit :=
  fun s => if (dst + n <=? Z.of_nat (length (buf s))) && (src + n <=? Z.of_nat (length (buf s)))
           then Ret tt (mkState (store (buf s) dst (load (buf s) src n))
                                (stream s) (out s) (err s))
           else Undefined.

(** [fread(&buf[p], n, 1, f)]: the number of members read, 0 or 1.  A request
    of size 0 reads nothing and returns 0; a short stream delivers what it
    has and returns 0. *)
Definition fread (p n : Z) : M Z :=
  fun s =>
    if n =? 0 then Ret 0 s
    else
      let avail := Z.of_nat (length (stream s)) in
      let k := Z.min n avail in
      if p + k <=? Z.of_nat (length (buf s)) then
        Ret (if n <=? avail then 1 else 0)
            (mkState (store (buf s) p (firstn (Z.to_nat k) (stream s)))
                     (skipn (Z.to_nat k) (stream s)) (out s) (err s))
      else Undefined.

(** ** print_hex *)

(** The inner [for (j=0; (j < 4) && (i < len); j++, i+=4)]; returns the final
    [i].  [p] is the offset in [buf] that the pointer argument designates. *)
Fixpoint print_hex_for (fuel : nat) (p len i j : Z) : M Z :=
  match fuel with
  | O => diverges
  | S fuel' =>
      if (j <? 4) && (i <? len) then
        b0 <- rd (p + i) ;;
        b1 <- rd (p + wrap32 (i + 1)) ;;
        b2 <- rd (p + wrap32 (i + 2)) ;;
        b3 <- rd (p + wrap32 (i + 3)) ;;
        printf "%02x%02x%02x%02x " [Int b0; Int b1; Int b2; Int b3] ;;;
        print_hex_for fuel' p len (wrap32 (i + 4)) (wrap32 (j + 1))
      else ret i
  end.

(** The outer [while (i < len)]. *)
Fixpoint print_hex_while (fuel : nat) (p len i : Z) : M unit :=
  if i <? len then
    match fuel with
    | O => diverges
    | S fuel' =>
        i' <- print_hex_for 5 p len i 0 ;;
        printf "\n" [] ;;;
        print_hex_while fuel' p len i'
    end
  else ret tt.

(** [print_hex(&buf[p], len)].  Every turn of the outer loop prints at least
    one group, so [len] turns and one more test are enough whenever the loop
    ends at all. *)
Definition print_hex (p len : Z) : M unit :=
  print_hex_while (S (Z.to_nat len)) p len 0.

(** A [UINT16] or [UINT32] read through a cast pointer, as in
    [*(UINT16 * )&buf[p]]. *)
Definition rd_int (host : endian) (p n : Z) : M Z :=
  fun s => if (0 <=? p) && (p + n <=? Z.of_nat (length (buf s)))
           then Ret (load_int host (buf s) p n) s
           else Undefined.

(** [memcmp] on two byte sequences of the same length: 0 when they agree,
    otherwise the sign of the first difference. *)
Fixpoint memcmp_bytes (a b : list BYTE) : Z :=
  match a, b with
  | x :: a', y :: b' =>
      if byte_val x =? byte_val y then memcmp_bytes a' b'
      else if byte_val x <? byte_val y then -1 else 1
  | _, _ => 0
  end.

(** ** The inspector *)

Section Inspect.

(** Byte order of the machine that runs the inspector. *)
Variable host : endian.

(** The bytes of [TSS_UUID_SRK], which trousers/tss.h defines; the header is
    not part of the sources at hand, so the identifier is a parameter. *)
Variable SRK_UUID : list BYTE.

Definition printkey_0 (i : Z) : M Z :=
  printf "PS uuid%d: " [Int i] ;;;
  print_hex 0 sizeof_TSS_UUID ;;;
  printf "PS parent uuid%d: " [Int i] ;;;
  print_hex sizeof_TSS_UUID sizeof_TSS_UUID ;;;
  pub_data_size <- rd_int host (2 * sizeof_TSS_UUID) sizeof_UINT16 ;;
  blob_size <- rd_int host (2 * sizeof_TSS_UUID + sizeof_UINT16) sizeof_UINT16 ;;
  cache_flags <- rd_int host (2 * sizeof_TSS_UUID + 2 * sizeof_UINT16) sizeof_UINT16 ;;
  printf "PS pub_data_size%d: %hu\n" [Int i; Int pub_data_size] ;;;
  printf "PS blob_size%d: %hu\n" [Int i; Int blob_size] ;;;
  printf "PS cache_flags%d: %02hx\n" [Int i; Int cache_flags] ;;;
  (* trash buf, we've got what we needed from it *)
  members <- fread 0 (pub_data_size + blob_size) ;;
  if negb (members =? 1) then
    PRINTERR "fread: %s: %d members read\n" [StrError; Int members] ;;;
    ret (-1)
  else
    printf "PS pub_data%d:\n" [Int i] ;;;
    print_hex 0 pub_data_size ;;;
    printf "PS blob%d:\n" [Int i] ;;;
    print_hex pub_data_size blob_size ;;;
    ret 0.

Definition printkey_1 : M Z := ret 0.

(** [for (i = 1; i < u32; i++)] of [version_0_print]. *)
Fixpoint version_0_for (fuel : nat) (i u32 : Z) : M Z :=
  if i <? u32 then
    match fuel with
    | O => diverges
    | S fuel' =>
        (* read in subsequent key's headers *)
        members <- fread 0 (2 * sizeof_TSS_UUID + 3 * sizeof_UINT16) ;;
        if negb (members =? 1) then
          PRINTERR "fread: %s\n" [StrError] ;;;
          ret (-1)
        else
          rc <- printkey_0 (int_of_u32 i) ;;
          if negb (rc =? 0) then ret rc
          else version_0_for fuel' (wrap32 (i + 1)) u32
    end
  else ret 0.

Definition version_0_print : M Z :=
  u32 <- rd_int host 0 sizeof_UINT32 ;;
  printf "PS version:        0\n" [] ;;;
  printf "PS number of keys: %u\n" [Int u32] ;;;
  (* align the beginning of the buffer with the beginning of the key *)
  memcpy 0 4 (sizeof_TSS_UUID + 1) ;;;
  (* read in the rest of the first key's header *)
  members <- fread (sizeof_TSS_UUID + 1)
                   (sizeof_TSS_UUID + 3 * sizeof_UINT16 - 1) ;;
  if negb (members =? 1) then
    PRINTERR "fread: %s\n" [StrError] ;;;
    ret (-1)
  else
    rc <- printkey_0 0 ;;
    if negb (rc =? 0) then
      PRINTERR "printkey_0 failed.\n" [] ;;;
      ret (-1)
    else version_0_for (Z.to_nat u32) 1 u32.

(** [for (i = 0; i < ( *u32 - 1); i++)] of [version_1_print]; [*u32] is read
    from [buf] at every test. *)
Fixpoint version_1_for (fuel : nat) (i : Z) : M Z :=
  u32 <- rd_int host 1 sizeof_UINT32 ;;
  if i <? wrap32 (u32 - 1) then
    match fuel with
    | O => diverges
    | S fuel' =>
        rc <- printkey_1 ;;
        if negb (rc =? 0) then ret rc
        else version_1_for fuel' (wrap32 (i + 1))
    end
  else ret 0.

Definition version_1_print : M Z :=
  u32 <- rd_int host 1 sizeof_UINT32 ;;
  printf "PS version:        1\n" [] ;;;
  printf "PS number of keys: %u\n" [Int u32] ;;;
  version_1_for (Z.to_nat (wrap32 (u32 - 1))) 0.

Definition inspect : M Z :=
  (* do the initial read, which should include sizeof(TSS_UUID)
     + sizeof(UINT32) + 1 bytes *)
  members <- fread 0 (sizeof_TSS_UUID + sizeof_UINT32 + 1) ;;
  if negb (members =? 1) then
    PRINTERR "fread: %s\n" [StrError] ;;;
    ret (-1)
  else
    b0 <- rd 0 ;;
    if b0 =? 1 then
      num_keys <- rd_int host 1 sizeof_UINT32 ;;
      if num_keys =? 0 then version_0_print
      else
        s <- get ;;
        if negb (memcmp_bytes (load (buf s) 5 sizeof_TSS_UUID) SRK_UUID =? 0)
        then version_0_print
        else version_1_print
    else version_0_print.

(** [usage] ends the process with [exit(-1)]; [main] hands the value on as
    its own result. *)
Definition usage (argv0 : string) : M Z :=
  PRINTERR "usage: %s filename\n" [Str argv0] ;;;
  ret (-1).

(** [fopen(name, "r")] against a file system [fs]; [fclose] has no effect
    on the state kept here. *)
Definition main (fs : string -> option (list BYTE)) (argv : list string) : M Z :=
  if negb (Z.of_nat (length argv) =? 2) then usage (nth 0 argv "")
  else
    match fs (nth 1 argv "") with
    | None =>
        PRINTERR "fopen(%s): %s\n" [Str (nth 1 argv ""); StrError] ;;;
        ret (-1)
    | Some content =>
        (fun s => Ret tt (mkState (buf s) content (out s) (err s))) ;;;
        printf "PS filename: %s\n" [Str (nth 1 argv "")] ;;;
        rc <- inspect ;;
        ret rc
    end.

End Inspect.

(** What [printkey_0] does once it has printed the three sizes: the part
    from the read of the data on, as a function of the sizes found in the
    header. *)
Definition printkey_0_data (i pub_data_size blob_size : Z) : M Z :=
  members <- fread 0 (pub_data_size + blob_size) ;;
  if negb (members =? 1) then
    PRINTERR "fread: %s: %d members read\n" [StrError; Int members] ;;;
    ret (-1)
  else
    printf "PS pub_data%d:\n" [Int i] ;;;
    print_hex 0 pub_data_size ;;;
    printf "PS blob%d:\n" [Int i] ;;;
    print_hex pub_data_size blob_size ;;;
    ret 0.

(** At program start the global buffer is zero-initialised and nothing has
    been printed. *)
Definition initial_state : state :=
  mkState (repeat Byte.x00 (Z.to_nat sizeof_buf)) [] [] [].

(** The state in which [main] calls [inspect] on a file of the given
    content, leaving aside the line that names the file. *)
Definition opened (content : list BYTE) : state :=
  mkState (buf initial_state) content [] [].

(** The exit status the parent process sees: the low eight bits of the value
    returned by [main] or passed to [exit]. *)
Definition exit_status (rc : Z) : Z := rc mod 256.

(** The exit status of a run, if the run ends. *)
Definition run (host : endian) (SRK_UUID : list BYTE)
    (fs : string -> option (list BYTE)) (argv : list string) : option Z :=
  match main host SRK_UUID fs argv initial_state with
  | Ret rc _ => Some (exit_status rc)
  | _ => None
  end.

(** [TSS_UUID_SRK] as the TSS headers give it: [{0, 0, 0, 0, 0, {0, 0, 0, 0, 0, 1}}]. *)
Definition TSS_UUID_SRK : list BYTE :=
  repeat Byte.x00 15 ++ [Byte.x01].

(** ** What a hexadecimal dump looks like

    The dump of a byte sequence whose length is a multiple of four: one
    [printf] per group of four bytes, a line break after every fourth group
    and after the last one.  [n] groups are still to come and [j] groups
    stand on the current line. *)

Definition hex_group (l : list BYTE) : event :=
  Printf "%02x%02x%02x%02x " (map (fun b => Int (byte_val b)) l).

Definition newline : event := Printf "\n" [].

Fixpoint hex_dump_aux (n j : nat) (l : list BYTE) : list event :=
  match n with
  | O => match j with O => [] | S _ => [newline] end
  | S n' =>
      if Nat.eqb j 4
      then newline :: hex_group (firstn 4 l) :: hex_dump_aux n' 1 (skipn 4 l)
      else hex_group (firstn 4 l) :: hex_dump_aux n' (S j) (skipn 4 l)
  end.

Definition hex_dump (l : list BYTE) : list event :=
  hex_dump_aux (Nat.div (length l) 4) 0 l.

(** The integer arguments of a sequence of [printf] calls, in order. *)
Definition int_args (e : event) : list Z :=
  match e with
  | Printf _ args =>
      flat_map (fun a => match a with Int z => [z] | _ => [] end) args
  end.

Definition printed_ints (evs : list event) : list Z := flat_map int_args evs.

(** An event of a dump: a line break or a group of exactly four bytes. *)
Definition whole_group (e : event) : Prop :=
  e = newline \/ exists g, length g = 4%nat /\ e = hex_group g.

(** The number of bytes [print_hex] prints for a field of [len] bytes. *)
Definition round_up_4 (len : Z) : Z := 4 * ((len + 3) / 4).

(** ** The two store layouts, parsed field by field

    These definitions follow the description of the on-disk layouts (section
    6 of the specification, and the comment at the head of ps_inspect.c), not
    the code: they are what the inspector is compared with. *)

Inductive Dialect : Type :=
| Legacy
| Versioned (version_byte : Z).

Record StoreHeader : Type := mkStoreHeader {
  dialect : Dialect;
  key_count : Z
}.

Record KeyRecord : Type := mkKeyRecord {
  uuid : list BYTE;
  parent_uuid : list BYTE;
  pub_data : list BYTE;
  blob : list BYTE;
  vendor_data : list BYTE;
  cache_flags : Z
}.

Definition pub_data_size (r : KeyRecord) : Z := Z.of_nat (length (pub_data r)).
Definition blob_size (r : KeyRecord) : Z := Z.of_nat (length (blob r)).

(** Take the next [n] bytes of the input, if they are there. *)
Definition take (n : Z) (bs : list BYTE) : option (list BYTE * list BYTE) :=
  if n <=? Z.of_nat (length bs)
  then Some (firstn (Z.to_nat n) bs, skipn (Z.to_nat n) bs)
  else None.

Notation "'let?' ( x , y ) := c1 'in' c2" :=
  (match c1 with Some (x, y) => c2 | None => None end)
  (at level 10, x name, y name, c1 at level 100, c2 at level 200).

(** uuid:16B, parent_uuid:16B, pub_data_size:u16, blob_size:u16,
    cache_flags:u16, pub_data:[pub_data_size]B, blob:[blob_size]B *)
Definition spec_legacy_record (host : endian) (bs : list BYTE)
  : option (KeyRecord * list BYTE) :=
  let? (u, bs) := take 16 bs in
  let? (pu, bs) := take 16 bs in
  let? (psz, bs) := take 2 bs in
  let? (bsz, bs) := take 2 bs in
  let? (cf, bs) := take 2 bs in
  let? (pub, bs) := take (host_val host psz) bs in
  let? (bl, bs) := take (host_val host bsz) bs in
  Some (mkKeyRecord u pu pub bl [] (host_val host cf), bs).

(** uuid:16B, parent_uuid:16B, pub_data_size:u16, blob_size:u16,
    vendor_data_size:u32, cache_flags:u16, pub_data, blob, vendor_data *)
Definition spec_versioned_record (host : endian) (bs : list BYTE)
  : option (KeyRecord * list BYTE) :=
  let? (u, bs) := take 16 bs in
  let? (pu, bs) := take 16 bs in
  let? (psz, bs) := take 2 bs in
  let? (bsz, bs) := take 2 bs in
  let? (vsz, bs) := take 4 bs in
  let? (cf, bs) := take 2 bs in
  let? (pub, bs) := take (host_val host psz) bs in
  let? (bl, bs) := take (host_val host bsz) bs in
  let? (vd, bs) := take (host_val host vsz) bs in
  Some (mkKeyRecord u pu pub bl vd (host_val host cf), bs).

Fixpoint spec_records (rec : list BYTE -> option (KeyRecord * list BYTE))
    (n : nat) (bs : list BYTE) : option (list KeyRecord * list BYTE) :=
  match n with
  | O => Some ([], bs)
  | S n' =>
      let? (r, bs) := rec bs in
      let? (rs, bs) := spec_records rec n' bs in
      Some (r :: rs, bs)
  end.

(** Legacy: key_count:u32, then the records; what follows the last record is
    handed back untouched. *)
Definition spec_decode_legacy (host : endian) (bs : list BYTE)
  : option ((StoreHeader * list KeyRecord) * list BYTE) :=
  let? (kc, bs) := take 4 bs in
  let? (rs, bs) := spec_records (spec_legacy_record host)
                                (Z.to_nat (host_val host kc)) bs in
  Some ((mkStoreHeader Legacy (host_val host kc), rs), bs).

(** Versioned: marker:1B=1, key_count:u32, then the records. *)
Definition spec_decode_versioned (host : endian) (bs : list BYTE)
  : option ((StoreHeader * list KeyRecord) * list BYTE) :=
  let? (mk, bs) := take 1 bs in
  if negb (host_val host mk =? 1) then None else
  let? (kc, bs) := take 4 bs in
  let? (rs, bs) := spec_records (spec_versioned_record host)
                                (Z.to_nat (host_val host kc)) bs in
  Some ((mkStoreHeader (Versioned 1) (host_val host kc), rs), bs).

(** A store is well formed in a dialect when the field-by-field parse uses
    it up exactly. *)
Definition well_formed_legacy (host : endian) (bs : list BYTE) : Prop :=
  exists hdr rs, spec_decode_legacy host bs = Some ((hdr, rs), []).

Definition well_formed_versioned (host : endian) (bs : list BYTE) : Prop :=
  exists hdr rs, spec_decode_versioned host bs = Some ((hdr, rs), []).

(** ** The dump of a decoded Legacy store

    What the inspector prints for a record, written from the record's fields.
    [print_hex] prints whole groups of four bytes, so the dump of [pub_data]
    and of [blob] ends with up to three bytes that are not part of the field:
    [pad] holds them. *)

Definition pad_len (len : Z) : Z := round_up_4 len - len.

Definition dump_key_fixed (i : Z) (r : KeyRecord) : list event :=
  [Printf "PS uuid%d: " [Int i]] ++ hex_dump (uuid r) ++
  [Printf "PS parent uuid%d: " [Int i]] ++ hex_dump (parent_uuid r) ++
  [Printf "PS pub_data_size%d: %hu\n" [Int i; Int (pub_data_size r)];
   Printf "PS blob_size%d: %hu\n" [Int i; Int (blob_size r)];
   Printf "PS cache_flags%d: %02hx\n" [Int i; Int (cache_flags r)]].

Definition dump_key_data (i : Z) (r : KeyRecord) (pad : list BYTE * list BYTE)
  : list event :=
  [Printf "PS pub_data%d:\n" [Int i]] ++ hex_dump (pub_data r ++ fst pad) ++
  [Printf "PS blob%d:\n" [Int i]] ++ hex_dump (blob r ++ snd pad).

Definition dump_key (i : Z) (r : KeyRecord) (pad : list BYTE * list BYTE)
  : list event :=
  dump_key_fixed i r ++ dump_key_data i r pad.

(** The records from number [i] on; the number is printed with [%d] after
    its conversion to [int]. *)
Fixpoint dump_keys (i : Z) (rs : list KeyRecord)
    (pads : list (list BYTE * list BYTE)) : list event :=
  match rs, pads with
  | r :: rs', pad :: pads' =>
      dump_key (int_of_u32 i) r pad ++ dump_keys (i + 1) rs' pads'
  | _, _ => []
  end.

Definition dump_legacy (hdr : StoreHeader) (rs : list KeyRecord)
    (pads : list (list BYTE * list BYTE)) : list event :=
  [Printf "PS version:        0\n" [];
   Printf "PS number of keys: %u\n" [Int (key_count hdr)]] ++
  dump_keys 0 rs pads.

Definition pad_fits (r : KeyRecord) (pad : list BYTE * list BYTE) : Prop :=
  Z.of_nat (length (fst pad)) = pad_len (pub_data_size r) /\
  Z.of_nat (length (snd pad)) = pad_len (blob_size r).

(** The record's data can be read into [buf] and dumped from it without
    leaving the array. *)
Definition fits_buf (r : KeyRecord) : Prop :=
  round_up_4 (pub_data_size r) <= sizeof_buf /\
  pub_data_size r + round_up_4 (blob_size r) <= sizeof_buf.

(** The record carries at least one byte of data. *)
Definition has_data (r : KeyRecord) : Prop :=
  0 < pub_data_size r + blob_size r.

(** The test [inspect] applies to the 21 bytes it reads first. *)
Definition looks_versioned (host : endian) (SRK_UUID bs : list BYTE) : bool :=
  match bs with
  | b0 :: _ =>
      (byte_val b0 =? 1) &&
      negb (host_val host (load bs 1 4) =? 0) &&
      (memcmp_bytes (load bs 5 16) SRK_UUID =? 0)
  | [] => false
  end.

(** ** Stores used as examples *)

Definition zeros (n : nat) : list BYTE := repeat Byte.x00 n.

(** The scenario of section 8 of the specification on a little-endian host:
    key_count = 2; record A with pub_data = [aa, bb] and blob = [cc] under
    the storage root key; record B with empty pub_data and blob =
    [dd, ee, ff] under A. *)
Definition uuid_A : list BYTE := Byte.x01 :: zeros 15.
Definition uuid_B : list BYTE := Byte.x02 :: zeros 15.

Definition legacy_record_A : list BYTE :=
  uuid_A ++ TSS_UUID_SRK ++
  [Byte.x02; Byte.x00; Byte.x01; Byte.x00; Byte.x00; Byte.x00] ++
  [Byte.xaa; Byte.xbb] ++ [Byte.xcc].

Definition legacy_record_B : list BYTE :=
  uuid_B ++ uuid_A ++
  [Byte.x00; Byte.x00; Byte.x03; Byte.x00; Byte.x00; Byte.x00] ++
  [Byte.xdd; Byte.xee; Byte.xff].

Definition example_legacy_store : list BYTE :=
  [Byte.x02; Byte.x00; Byte.x00; Byte.x00] ++ legacy_record_A ++ legacy_record_B.

(** A Legacy store of two records, the first of which carries no data at
    all: key A under the storage root key with empty pub_data and blob, then
    record B. *)
Definition legacy_store_empty_record : list BYTE :=
  [Byte.x02; Byte.x00; Byte.x00; Byte.x00] ++
  (uuid_A ++ TSS_UUID_SRK ++ zeros 6) ++ legacy_record_B.

(** A Legacy store of two records, the second of which carries more data
    than [buf] holds: record A, then key B under A with 1025 bytes of
    pub_data (pub_data_size = 01 04 on a little-endian host) and an empty
    blob. *)
Definition legacy_store_large_record : list BYTE :=
  [Byte.x02; Byte.x00; Byte.x00; Byte.x00] ++ legacy_record_A ++
  (uuid_B ++ uuid_A ++
   [Byte.x01; Byte.x04; Byte.x00; Byte.x00; Byte.x00; Byte.x00] ++
   repeat Byte.xaa 1025).

(** The well-formed empty Legacy store, and a store that declares no key
    but goes on with the bytes of record A. *)
Definition legacy_store_no_keys : list BYTE := zeros 4.

Definition legacy_store_no_keys_then_record : list BYTE :=
  zeros 4 ++ legacy_record_A.

(** A Versioned store on a little-endian host: marker, key_count = 1, the
    storage root key with pub_data = [aa], blob = [bb], vendor_data = [cc]. *)
Definition example_versioned_store : list BYTE :=
  [Byte.x01] ++ [Byte.x01; Byte.x00; Byte.x00; Byte.x00] ++
  TSS_UUID_SRK ++ zeros 16 ++
  [Byte.x01; Byte.x00; Byte.x01; Byte.x00] ++
  [Byte.x01; Byte.x00; Byte.x00; Byte.x00] ++ [Byte.x00; Byte.x00] ++
  [Byte.xaa] ++ [Byte.xbb] ++ [Byte.xcc].

(** A Versioned header that declares two keys, followed by the identifier of
    the first one and nothing else. *)
Definition versioned_store_two_keys_declared : list BYTE :=
  [Byte.x01] ++ [Byte.x02; Byte.x00; Byte.x00; Byte.x00] ++ TSS_UUID_SRK.

(** A file system that holds one file. *)
Definition one_file (name : string) (content : list BYTE)
  : string -> option (list BYTE) :=
  fun n => if String.eqb n name then Some content else None.

(** A Legacy store on a little-endian host that passes the test [inspect]
    applies for the Versioned layout: key_count = 1 (so byte 0 is 01); one
    key whose identifier is 01 00 .. 00 and whose parent identifier starts
    with 01, with pub_data = [aa, bb] and blob = [cc]. *)
Definition legacy_store_like_versioned : list BYTE :=
  [Byte.x01; Byte.x00; Byte.x00; Byte.x00] ++
  uuid_A ++ uuid_A ++
  [Byte.x02; Byte.x00; Byte.x01; Byte.x00; Byte.x00; Byte.x00] ++
  [Byte.xaa; Byte.xbb] ++ [Byte.xcc].

(** A Legacy store of 1064 bytes: no key declared, then one record with
    1021 bytes of pub_data and a blob of one byte. *)
Definition legacy_store_1064 : list BYTE :=
  zeros 4 ++ zeros 16 ++ zeros 16 ++
  [Byte.xfd; Byte.x03; Byte.x01; Byte.x00; Byte.x00; Byte.x00] ++
  zeros 1022.

(** The state in which [printkey_0] finds a key whose bytes are [bytes]: the
    38 bytes of the fixed-size fields at the front of the buffer, the data
    still to be read. *)
Definition at_key (bytes : list BYTE) : state :=
  mkState (store (buf initial_state) 0 (firstn 38 bytes)) (skipn 38 bytes) [] [].

(** ** The lines of an output *)

(** A call [printf("\n")]. *)
Definition is_newline (e : event) : bool :=
  match e with
  | Printf fmt _ => String.eqb fmt "\n"
  end.

(** The lines of an output, each by the number of [printf] calls that made
    it: the lines that a line break ends, and the number of calls after the
    last line break.  [cur] calls stand on the line under way. *)
Fixpoint line_lengths (cur : nat) (evs : list event) : list nat * nat :=
  match evs with
  | [] => ([], cur)
  | e :: evs' =>
      if is_newline e
      then let (ls, r) := line_lengths 0 evs' in (cur :: ls, r)
      else line_lengths (S cur) evs'
  end.

(** [n] groups set four to a line: full lines, then a shorter last one if
    [n] is not a multiple of four. *)
Definition four_to_a_line (n : nat) : list nat :=
  repeat 4%nat (Nat.div n 4) ++
  (if Nat.eqb (Nat.modulo n 4) 0 then [] else [Nat.modulo n 4]).

(** What [printkey_0] prints for key [i] before it reads the data, from the
    38 bytes at the front of the buffer [b]. *)
Definition key_header_dump (host : endian) (i : Z) (b : list BYTE) : list event :=
  [Printf "PS uuid%d: " [Int i]] ++ hex_dump (load b 0 16) ++
  [Printf "PS parent uuid%d: " [Int i]] ++ hex_dump (load b 16 16) ++
  [Printf "PS pub_data_size%d: %hu\n" [Int i; Int (load_int host b 32 2)];
   Printf "PS blob_size%d: %hu\n" [Int i; Int (load_int host b 34 2)];
   Printf "PS cache_flags%d: %02hx\n" [Int i; Int (load_int host b 36 2)]].

(** ** Triples *)

(** [triple ub P m Q]: started in a state that satisfies [P], the computation
    [m] does not loop for ever, and when it returns [a] in the state [s'],
    [Q a s'] holds.  [ub] is what an access outside [buf] counts as: [True]
    leaves it open, [False] rules it out. *)
Definition triple {A} (ub : Prop) (P : state -> Prop) (m : M A)
    (Q : A -> state -> Prop) : Prop :=
  forall s, P s ->
    match m s with
    | Ret a s' => Q a s'
    | Undefined => ub
    | Diverges => False
    end.

(** The buffer has its 1024 bytes and stderr holds [e0]. *)
Definition calm (e0 : list event) (s : state) : Prop :=
  length (buf s) = 1024%nat /\ err s = e0.

(** The result of a function that returns 0 on success and -1 on failure:
    nothing was written to stderr in the first case, something was in the
    second. *)
Definition reported (e0 : list event) (rc : Z) (s : state) : Prop :=
  length (buf s) = 1024%nat /\
  ((rc = 0 /\ err s = e0) \/
   (rc = -1 /\ exists e evs, err s = e0 ++ e :: evs)).

(** The buffer has its 1024 bytes and the stream at most [k] more bytes. *)
Definition small (k : Z) (s : state) : Prop :=
  length (buf s) = 1024%nat /\ Z.of_nat (length (stream s)) <= k.

(** ** The same program on a longer file *)

(** The same state with [more] bytes added at the end of the stream: the
    same program on a longer file. *)
Definition extend (more : list BYTE) (s : state) : state :=
  mkState (buf s) (stream s ++ more) (out s) (err s).

(** The outcome on the longer stream of a computation that does not look at
    the stream. *)
Definition extend_outcome {A} (more : list BYTE) (o : outcome A) : outcome A :=
  match o with
  | Ret a s => Ret a (extend more s)
  | Undefined => Undefined
  | Diverges => Diverges
  end.

(** [m] neither reads the stream nor looks at it. *)
Definition steady {A} (m : M A) : Prop :=
  forall more s, m (extend more s) = extend_outcome more (m s).

(** [o2] follows [o1]: when the run on the shorter stream returned [a] in
    [s1], the run on the longer stream did the same, or [a] reports a failure
    and the run on the longer stream, if it returned, has printed what the
    shorter one printed and possibly more. *)
Definition follows {A} (more : list BYTE) (failed : A -> bool)
    (o1 o2 : outcome A) : Prop :=
  match o1 with
  | Ret a s1 =>
      o2 = Ret a (extend more s1) \/
      (failed a = true /\
       match o2 with
       | Ret _ s2 => exists evs, out s2 = out s1 ++ evs
       | _ => True
       end)
  | _ => True
  end.

Definition monotone {A} (failed : A -> bool) (m : M A) : Prop :=
  forall more s, follows more failed (m s) (m (extend more s)).

(** [m] hands a failure on without a word on stdout. *)
Definition quiet {A} (failed : A -> bool) (m : M A) : Prop :=
  forall s a s', m s = Ret a s' -> failed a = true /\ out s' = out s.

(** The results that report a failure: a count of members other than 1, a
    return value other than 0. *)
Definition no_member (members : Z) : bool := negb (members =? 1).
Definition nonzero (rc : Z) : bool := negb (rc =? 0).

(** ** The thread manager declared in tcsd.h *)




































(** * Proofs *)

(** ** The state monad *)

Lemma add_out_add_out s a b : add_out (add_out s a) b = add_out s (a ++ b).
Proof. unfold add_out; simpl. now rewrite <- app_assoc. Qed.

Lemma add_out_nil s : add_out s [] = s.
Proof. destruct s; unfold add_out; simpl. now rewrite app_nil_r. Qed.

Lemma bind_Ret {A B} (m : M A) (k : A -> M B) s a s' :
  m s = Ret a s' -> bind m k s = k a s'.
Proof. intros H. unfold bind. now rewrite H. Qed.

(** ** Reading the buffer *)

Lemma rd_at s q b :
  0 <= q -> nth_error (buf s) (Z.to_nat q) = Some b -> rd q s = Ret (byte_val b) s.
Proof.
  intros Hq H. unfold rd.
  assert (Hlt : (Z.to_nat q < length (buf s))%nat) by (apply nth_error_Some; congruence).
  replace (0 <=? q) with true by (symmetry; apply Z.leb_le; lia).
  replace (q <? Z.of_nat (length (buf s))) with true by (symmetry; apply Z.ltb_lt; lia).
  simpl. now rewrite H.
Qed.

Lemma rd_outside s q :
  0 <= q -> nth_error (buf s) (Z.to_nat q) = None -> rd q s = Undefined.
Proof.
  intros Hq H. unfold rd. rewrite H. now destruct (_ && _).
Qed.

Lemma wrap32_small z : 0 <= z < 4294967296 -> wrap32 z = z.
Proof. intros H. unfold wrap32. now apply Z.mod_small. Qed.

Lemma nth_error_after_skipn (b : list BYTE) k m :
  nth_error b (k + m) = nth_error (skipn k b) m.
Proof. symmetry. apply nth_error_skipn. Qed.

Lemma rd_skipn s p i (k : nat) :
  0 <= p -> 0 <= i ->
  rd (p + (i + Z.of_nat k)) s =
  match nth_error (skipn (Z.to_nat (p + i)) (buf s)) k with
  | Some b => Ret (byte_val b) s
  | None => Undefined
  end.
Proof.
  intros Hp Hi.
  rewrite <- nth_error_after_skipn.
  replace (Z.to_nat (p + i) + k)%nat with (Z.to_nat (p + (i + Z.of_nat k))) by lia.
  destruct (nth_error _ _) eqn:E.
  - apply rd_at; [lia | exact E].
  - apply rd_outside; [lia | exact E].
Qed.

(** ** print_hex *)

(** One turn of the inner loop prints the next four bytes. *)
Lemma print_hex_for_step p len f i j s l (k : Z -> M unit) :
  0 <= p -> 0 <= i -> i + 4 <= 4294967292 -> i < len -> (j < 4)%nat ->
  skipn (Z.to_nat (p + i)) (buf s) = l -> (4 <= length l)%nat ->
  bind (print_hex_for (S f) p len i (Z.of_nat j)) k s
  = bind (print_hex_for f p len (i + 4) (Z.of_nat (S j))) k
         (add_out s [hex_group (firstn 4 l)]).
Proof.
  intros Hp Hi Hmax Hlen Hj Hl H4.
  cbn [print_hex_for].
  replace (Z.of_nat j <? 4) with true by (symmetry; apply Z.ltb_lt; lia).
  replace (i <? len) with true by (symmetry; apply Z.ltb_lt; lia).
  cbn [andb].
  rewrite !wrap32_small by lia.
  destruct l as [|b0 [|b1 [|b2 [|b3 l']]]]; simpl in H4; try lia.
  unfold bind at 1 2.
  pose proof (rd_skipn s p i 0 Hp Hi) as R0.
  pose proof (rd_skipn s p i 1 Hp Hi) as R1.
  pose proof (rd_skipn s p i 2 Hp Hi) as R2.
  pose proof (rd_skipn s p i 3 Hp Hi) as R3.
  rewrite Hl in R0, R1, R2, R3. cbn [nth_error] in R0, R1, R2, R3.
  replace (i + Z.of_nat 0) with i in R0 by lia.
  change (Z.of_nat 1) with 1 in R1. change (Z.of_nat 2) with 2 in R2.
  change (Z.of_nat 3) with 3 in R3.
  rewrite R0. unfold bind at 1. rewrite R1. unfold bind at 1. rewrite R2.
  unfold bind at 1. rewrite R3.
  unfold bind at 1. unfold printf at 1.
  replace (Z.of_nat j + 1) with (Z.of_nat (S j)) by lia.
  unfold bind. reflexivity.
Qed.

Lemma print_hex_for_step_outside p len f i j s l (k : Z -> M unit) :
  0 <= p -> 0 <= i -> i + 4 <= 4294967292 -> i < len -> (j < 4)%nat ->
  skipn (Z.to_nat (p + i)) (buf s) = l -> (length l < 4)%nat ->
  bind (print_hex_for (S f) p len i (Z.of_nat j)) k s = Undefined.
Proof.
  intros Hp Hi Hmax Hlen Hj Hl H4.
  cbn [print_hex_for].
  replace (Z.of_nat j <? 4) with true by (symmetry; apply Z.ltb_lt; lia).
  replace (i <? len) with true by (symmetry; apply Z.ltb_lt; lia).
  cbn [andb].
  rewrite !wrap32_small by lia.
  pose proof (rd_skipn s p i 0 Hp Hi) as R0.
  pose proof (rd_skipn s p i 1 Hp Hi) as R1.
  pose proof (rd_skipn s p i 2 Hp Hi) as R2.
  pose proof (rd_skipn s p i 3 Hp Hi) as R3.
  rewrite Hl in R0, R1, R2, R3.
  replace (i + Z.of_nat 0) with i in R0 by lia.
  change (Z.of_nat 1) with 1 in R1. change (Z.of_nat 2) with 2 in R2.
  change (Z.of_nat 3) with 3 in R3.
  unfold bind at 1 2.
  destruct l as [|b0 [|b1 [|b2 [|b3 l']]]]; simpl in H4; try lia;
    cbn [nth_error] in R0, R1, R2, R3.
  - now rewrite R0.
  - rewrite R0. unfold bind at 1. now rewrite R1.
  - rewrite R0. unfold bind at 1. rewrite R1. unfold bind at 1. now rewrite R2.
  - rewrite R0. unfold bind at 1. rewrite R1. unfold bind at 1. rewrite R2.
    unfold bind at 1. now rewrite R3.
Qed.

Lemma print_hex_for_exit p len f i j s (k : Z -> M unit) :
  (4 <= j)%nat \/ len <= i ->
  bind (print_hex_for (S f) p len i (Z.of_nat j)) k s = k i s.
Proof.
  intros H. cbn [print_hex_for].
  replace ((Z.of_nat j <? 4) && (i <? len)) with false; [reflexivity|].
  symmetry. apply andb_false_iff. destruct H; [left; apply Z.ltb_ge|right; apply Z.ltb_ge]; lia.
Qed.

Lemma print_hex_while_exit p len f i s :
  len <= i -> print_hex_while f p len i s = Ret tt s.
Proof.
  intros H. destruct f; cbn [print_hex_while];
    (replace (i <? len) with false by (symmetry; apply Z.ltb_ge; lia)); reflexivity.
Qed.

Lemma print_hex_while_enter p len f i s :
  i < len ->
  print_hex_while (S f) p len i s
  = bind (print_hex_for 5 p len i 0)
         (fun i' => printf "\n" [] ;;; print_hex_while f p len i') s.
Proof.
  intros H. cbn [print_hex_while].
  now replace (i <? len) with true by (symmetry; apply Z.ltb_lt; lia).
Qed.

Lemma skipn_next s p i l :
  0 <= p -> 0 <= i ->
  skipn (Z.to_nat (p + i)) (buf s) = l ->
  forall evs, skipn (Z.to_nat (p + (i + 4))) (buf (add_out s evs)) = skipn 4 l.
Proof.
  intros Hp Hi Hl evs. subst l. rewrite skipn_skipn. cbn [add_out buf]. f_equal. lia.
Qed.

(** The rest of a run of [print_hex] seen from inside the inner loop. *)
Lemma print_hex_inside p len : forall n j i f1 f2 s l,
  0 <= p -> 0 <= i -> i + 4 * Z.of_nat n <= 4294967292 ->
  len <= i + 4 * Z.of_nat n -> (n <> 0%nat -> i + 4 * Z.of_nat n < len + 4) ->
  (j <= 4)%nat -> (j = 0%nat -> n <> 0%nat) -> (5 <= f1 + j)%nat -> (n <= f2)%nat ->
  skipn (Z.to_nat (p + i)) (buf s) = l -> (4 * n <= length l)%nat ->
  bind (print_hex_for f1 p len i (Z.of_nat j))
       (fun i' => printf "\n" [] ;;; print_hex_while f2 p len i') s
  = Ret tt (add_out s (hex_dump_aux n j l)).
Proof.
  induction n as [|n IH]; intros j i f1 f2 s l Hp Hi Hmax Hge Hlt Hj Hj0 Hf1 Hf2 Hl Hlen.
  - destruct f1 as [|f1]; [lia|].
    rewrite print_hex_for_exit by (right; lia).
    unfold bind, printf. rewrite print_hex_while_exit by lia.
    destruct j; [now elim Hj0|reflexivity].
  - assert (Hi' : i < len) by lia.
    assert (Hl' : forall evs, skipn (Z.to_nat (p + (i + 4))) (buf (add_out s evs)) = skipn 4 l)
      by (now apply skipn_next).
    assert (Hlen' : (4 * n <= length (skipn 4 l))%nat) by (rewrite length_skipn; lia).
    destruct (Nat.eq_dec j 4) as [->|Hne].
    + destruct f1 as [|f1]; [lia|].
      rewrite print_hex_for_exit by (left; lia).
      unfold bind at 1. unfold printf at 1.
      destruct f2 as [|f2]; [lia|].
      rewrite print_hex_while_enter by lia.
      change 0 with (Z.of_nat 0) at 1.
      rewrite (print_hex_for_step p len 4 i 0 _ l) by (trivial; lia).
      rewrite add_out_add_out.
      rewrite (IH 1%nat (i + 4) 4%nat f2 _ (skipn 4 l)) by (trivial; lia).
      rewrite add_out_add_out. reflexivity.
    + destruct f1 as [|f1]; [lia|].
      rewrite (print_hex_for_step p len f1 i j _ l) by (trivial; lia).
      rewrite (IH (S j) (i + 4) f1 f2 _ (skipn 4 l)) by (trivial; lia).
      rewrite add_out_add_out. cbn [hex_dump_aux].
      replace (Nat.eqb j 4) with false by (symmetry; apply Nat.eqb_neq; lia).
      reflexivity.
Qed.

Lemma print_hex_inside_outside p len : forall n j i f1 f2 s l,
  0 <= p -> 0 <= i -> i + Z.of_nat (length l) + 4 <= 4294967292 ->
  len <= i + 4 * Z.of_nat n -> (n <> 0%nat -> i + 4 * Z.of_nat n < len + 4) ->
  (j <= 4)%nat -> (5 <= f1 + j)%nat -> (n <= f2)%nat ->
  skipn (Z.to_nat (p + i)) (buf s) = l -> (length l < 4 * n)%nat ->
  bind (print_hex_for f1 p len i (Z.of_nat j))
       (fun i' => printf "\n" [] ;;; print_hex_while f2 p len i') s
  = Undefined.
Proof.
  induction n as [|n IH]; intros j i f1 f2 s l Hp Hi Hmax Hge Hlt Hj Hf1 Hf2 Hl Hlen;
    [lia|].
  assert (Hi' : i < len) by lia.
  assert (Hl' : forall evs, skipn (Z.to_nat (p + (i + 4))) (buf (add_out s evs)) = skipn 4 l)
    by (now apply skipn_next).
  assert (Hskip : length (skipn 4 l) = (length l - 4)%nat) by apply length_skipn.
  destruct (Nat.eq_dec j 4) as [->|Hne].
  - destruct f1 as [|f1]; [lia|].
    rewrite print_hex_for_exit by (left; lia).
    unfold bind at 1. unfold printf at 1.
    destruct f2 as [|f2]; [lia|].
    rewrite print_hex_while_enter by lia.
    change 0 with (Z.of_nat 0) at 1.
    destruct (Nat.lt_ge_cases (length l) 4) as [Hs|Hs].
    + now rewrite (print_hex_for_step_outside p len 4 i 0 _ l) by (trivial; lia).
    + rewrite (print_hex_for_step p len 4 i 0 _ l) by (trivial; lia).
      rewrite add_out_add_out.
      apply (IH 1%nat (i + 4) 4%nat f2 _ (skipn 4 l)); auto; lia.
  - destruct f1 as [|f1]; [lia|].
    destruct (Nat.lt_ge_cases (length l) 4) as [Hs|Hs].
    + now rewrite (print_hex_for_step_outside p len f1 i j _ l) by (trivial; lia).
    + rewrite (print_hex_for_step p len f1 i j _ l) by (trivial; lia).
      apply (IH (S j) (i + 4) f1 f2 _ (skipn 4 l)); auto; lia.
Qed.

Lemma hex_dump_aux_firstn : forall n j l,
  hex_dump_aux n j (firstn (4 * n) l) = hex_dump_aux n j l.
Proof.
  induction n as [|n IH]; intros j l; [reflexivity|].
  cbn [hex_dump_aux].
  replace (4 * S n)%nat with (4 + 4 * n)%nat by lia.
  rewrite firstn_firstn, skipn_firstn_comm.
  replace (Nat.min 4 (4 + 4 * n)) with 4%nat by lia.
  replace (4 + 4 * n - 4)%nat with (4 * n)%nat by lia.
  rewrite !IH. reflexivity.
Qed.

Lemma round_up_4_bounds len :
  0 <= len -> len <= round_up_4 len < len + 4.
Proof.
  intros H. unfold round_up_4.
  pose proof (Z.div_mod (len + 3) 4 ltac:(lia)).
  pose proof (Z.mod_pos_bound (len + 3) 4 ltac:(lia)). lia.
Qed.

Lemma round_up_4_groups len :
  0 <= len -> round_up_4 len = 4 * Z.of_nat (Z.to_nat ((len + 3) / 4)).
Proof.
  intros H. unfold round_up_4. rewrite Z2Nat.id; [reflexivity|].
  apply Z.div_pos; lia.
Qed.

Lemma length_load b p n :
  0 <= p -> 0 <= n -> p + n <= Z.of_nat (length b) ->
  length (load b p n) = Z.to_nat n.
Proof.
  intros Hp Hn H. unfold load. rewrite length_firstn, length_skipn. lia.
Qed.

Lemma print_hex_ok s p len :
  0 <= p -> 0 <= len -> Z.of_nat (length (buf s)) <= 4294967292 ->
  p + round_up_4 len <= Z.of_nat (length (buf s)) ->
  print_hex p len s
  = Ret tt (add_out s (hex_dump (load (buf s) p (round_up_4 len)))).
Proof.
  intros Hp Hlen Hmax Hfit.
  pose proof (round_up_4_bounds len Hlen) as Hr.
  unfold hex_dump. rewrite length_load by lia.
  set (n := Z.to_nat ((len + 3) / 4)).
  assert (Hn : round_up_4 len = 4 * Z.of_nat n) by (now apply round_up_4_groups).
  replace (Nat.div (Z.to_nat (round_up_4 len)) 4) with n
    by (rewrite Hn; replace (Z.to_nat (4 * Z.of_nat n)) with (n * 4)%nat by lia;
        now rewrite Nat.div_mul).
  unfold load. replace (Z.to_nat (round_up_4 len)) with (4 * n)%nat by lia.
  rewrite hex_dump_aux_firstn.
  unfold print_hex.
  destruct (Z.eq_dec len 0) as [->|Hpos].
  - rewrite print_hex_while_exit by lia.
    replace n with 0%nat by (unfold n; reflexivity).
    now rewrite add_out_nil.
  - rewrite print_hex_while_enter by lia.
    apply (print_hex_inside p len n 0%nat 0 5%nat (Z.to_nat len) s); try lia.
    + f_equal. lia.
    + rewrite length_skipn. lia.
Qed.

Lemma print_hex_outside s p len :
  0 <= p <= Z.of_nat (length (buf s)) -> 0 <= len ->
  Z.of_nat (length (buf s)) <= 4294967288 ->
  Z.of_nat (length (buf s)) < p + round_up_4 len ->
  print_hex p len s = Undefined.
Proof.
  intros Hp Hlen Hmax Hfit.
  pose proof (round_up_4_bounds len Hlen) as Hr.
  set (n := Z.to_nat ((len + 3) / 4)).
  assert (Hn : round_up_4 len = 4 * Z.of_nat n) by (now apply round_up_4_groups).
  unfold print_hex.
  assert (len <> 0) by (intros ->; unfold round_up_4 in Hfit; simpl in Hfit; lia).
  rewrite print_hex_while_enter by lia.
  apply (print_hex_inside_outside p len n 0%nat 0 5%nat (Z.to_nat len) s
           (skipn (Z.to_nat (p + 0)) (buf s))); try lia.
  - rewrite length_skipn. lia.
  - reflexivity.
  - rewrite length_skipn. lia.
Qed.

Lemma firstn_plus {A} (a b : nat) (l : list A) :
  firstn (a + b) l = firstn a l ++ firstn b (skipn a l).
Proof.
  revert l. induction a as [|a IH]; intros l; [reflexivity|].
  destruct l as [|x l]; cbn [Nat.add firstn skipn app].
  - now rewrite firstn_nil.
  - now rewrite IH.
Qed.

Lemma int_args_hex_group g : int_args (hex_group g) = map byte_val g.
Proof.
  unfold hex_group, int_args. induction g as [|b g IH]; [reflexivity|].
  cbn [map flat_map app]. now rewrite IH.
Qed.

Lemma printed_ints_hex_dump_aux : forall n j l,
  (4 * n <= length l)%nat ->
  printed_ints (hex_dump_aux n j l) = map byte_val (firstn (4 * n) l).
Proof.
  induction n as [|n IH]; intros j l H.
  - destruct j; reflexivity.
  - assert (Hs : (4 * n <= length (skipn 4 l))%nat) by (rewrite length_skipn; lia).
    replace (4 * S n)%nat with (4 + 4 * n)%nat by lia.
    rewrite firstn_plus, map_app.
    cbn [hex_dump_aux]. unfold printed_ints in *.
    destruct (Nat.eqb j 4); cbn [flat_map];
      rewrite int_args_hex_group, IH by exact Hs; reflexivity.
Qed.

Lemma whole_group_hex_dump_aux : forall n j l,
  (4 * n <= length l)%nat -> Forall whole_group (hex_dump_aux n j l).
Proof.
  induction n as [|n IH]; intros j l H.
  - destruct j; repeat constructor.
  - assert (Hs : (4 * n <= length (skipn 4 l))%nat) by (rewrite length_skipn; lia).
    assert (Hg : whole_group (hex_group (firstn 4 l))).
    { right. exists (firstn 4 l). split; [|reflexivity]. rewrite length_firstn. lia. }
    cbn [hex_dump_aux]. destruct (Nat.eqb j 4).
    + constructor; [now left|]. constructor; [exact Hg|now apply IH].
    + constructor; [exact Hg|now apply IH].
Qed.

Lemma hex_dump_of_groups l n :
  length l = (4 * n)%nat -> hex_dump l = hex_dump_aux n 0 l.
Proof.
  intros H. unfold hex_dump. rewrite H.
  replace (4 * n)%nat with (n * 4)%nat by lia. now rewrite Nat.div_mul.
Qed.

Lemma firstn_load b p n m :
  0 <= m <= n -> firstn (Z.to_nat m) (load b p n) = load b p m.
Proof.
  intros H. unfold load. rewrite firstn_firstn. f_equal. lia.
Qed.

(** C9: [print_hex] prints groups of four bytes, [round_up_4 len] bytes in
    all, for every [UINT32] length and every position in the 1024-byte
    buffer.  When that many bytes lie inside the buffer the output is the
    dump of [buf[p .. p + round_up_4 len - 1]], of which the first [len]
    bytes are the requested field; when they do not, the function reads
    outside the array.  If [len] is not a multiple of four, one to three of
    the bytes read and printed lie at indices [>= len]; if it is, exactly the
    indices [0 .. len - 1] are read, so that a field which ends where the
    buffer ends is printed without leaving the array exactly when its length
    is a multiple of four. *)
Theorem print_hex_rounds_up_to_four s p len :
  length (buf s) = Z.to_nat sizeof_buf ->
  0 <= p <= sizeof_buf ->
  0 <= len < 4294967296 ->
  let shown := load (buf s) p (round_up_4 len) in
  (p + round_up_4 len <= sizeof_buf ->
     print_hex p len s = Ret tt (add_out s (hex_dump shown)) /\
     printed_ints (hex_dump shown) = map byte_val shown /\
     Forall whole_group (hex_dump shown) /\
     Z.of_nat (length shown) = round_up_4 len /\
     firstn (Z.to_nat len) shown = load (buf s) p len) /\
  (sizeof_buf < p + round_up_4 len -> print_hex p len s = Undefined) /\
  (len mod 4 <> 0 -> len < round_up_4 len <= len + 3) /\
  (len mod 4 = 0 -> round_up_4 len = len) /\
  (p + len = sizeof_buf -> (print_hex p len s <> Undefined <-> len mod 4 = 0)).
Proof.
  intros Hbuf Hp Hlen shown. unfold sizeof_buf in *.
  pose proof (round_up_4_bounds len ltac:(lia)) as Hr.
  pose proof (round_up_4_groups len ltac:(lia)) as Hn.
  set (n := Z.to_nat ((len + 3) / 4)) in Hn.
  assert (Hmod : len mod 4 = 0 <-> round_up_4 len = len).
  { pose proof (Z.div_mod len 4 ltac:(lia)).
    pose proof (Z.mod_pos_bound len 4 ltac:(lia)).
    pose proof (Z.div_mod (len + 3) 4 ltac:(lia)).
    pose proof (Z.mod_pos_bound (len + 3) 4 ltac:(lia)).
    unfold round_up_4 in *. split; intros; lia. }
  assert (Hok : p + round_up_4 len <= 1024 ->
                print_hex p len s = Ret tt (add_out s (hex_dump shown)))
    by (intros; apply print_hex_ok; lia).
  assert (Hout : 1024 < p + round_up_4 len -> print_hex p len s = Undefined)
    by (intros; apply print_hex_outside; lia).
  split; [intros Hfit|split; [exact Hout|split; [|split]]].
  - assert (Hl : length shown = (4 * n)%nat)
      by (unfold shown; rewrite length_load; lia).
    split; [now apply Hok|]. split; [|split; [|split]].
    + rewrite (hex_dump_of_groups _ n Hl), printed_ints_hex_dump_aux by lia.
      rewrite <- Hl. now rewrite firstn_all.
    + rewrite (hex_dump_of_groups _ n Hl). apply whole_group_hex_dump_aux. lia.
    + lia.
    + unfold shown. apply firstn_load. lia.
  - intros Hm. assert (round_up_4 len <> len) by (intros E; now apply Hmod in E).
    lia.
  - apply Hmod.
  - intros Hend. split.
    + intros Hdef. apply Hmod.
      destruct (Z.eq_dec (round_up_4 len) len) as [E|E]; [exact E|].
      elim Hdef. apply Hout. lia.
    + intros Hm. apply Hmod in Hm. rewrite Hok by lia. discriminate.
Qed.

Lemma print_hex_rounds_up_to_four_witness :
  print_hex 0 5 initial_state
  = Ret tt (add_out initial_state (hex_dump (zeros 8))).
Proof.
  assert (Hbuf : length (buf initial_state) = Z.to_nat sizeof_buf) by reflexivity.
  assert (Hp : 0 <= 0 <= sizeof_buf) by (unfold sizeof_buf; lia).
  assert (Hlen : 0 <= 5 < 4294967296) by lia.
  assert (Hfit : 0 + round_up_4 5 <= sizeof_buf) by (vm_compute; discriminate).
  exact (proj1 (proj1 (print_hex_rounds_up_to_four initial_state 0 5 Hbuf Hp Hlen) Hfit)).
Defined.

(** ** Lists of bytes *)

Lemma byte_val_range b : 0 <= byte_val b < 256.
Proof.
  unfold byte_val. pose proof (Byte.to_N_bounded b). lia.
Qed.

Lemma le_val_nonneg l : 0 <= le_val l.
Proof.
  induction l as [|b l IH]; cbn [le_val]; [lia|].
  pose proof (byte_val_range b). lia.
Qed.

Lemma host_val_nonneg host l : 0 <= host_val host l.
Proof. destruct host; apply le_val_nonneg. Qed.

Lemma load_app_l (a b : list BYTE) n :
  0 <= n <= Z.of_nat (length a) -> load (a ++ b) 0 n = firstn (Z.to_nat n) a.
Proof.
  intros H. unfold load. cbn [Z.to_nat skipn]. rewrite firstn_app.
  replace (Z.to_nat n - length a)%nat with 0%nat by lia.
  cbn [firstn]. now rewrite app_nil_r.
Qed.

Lemma load_prefix (a b : list BYTE) n :
  Z.of_nat (length a) = n -> load (a ++ b) 0 n = a.
Proof.
  intros H. rewrite load_app_l by lia.
  replace (Z.to_nat n) with (length a) by lia. apply firstn_all.
Qed.

Lemma load_app_r (a b : list BYTE) p n :
  Z.of_nat (length a) <= p -> load (a ++ b) p n = load b (p - Z.of_nat (length a)) n.
Proof.
  intros H. unfold load. rewrite skipn_app.
  rewrite (skipn_all2 a) by lia. cbn [app]. do 2 f_equal. lia.
Qed.

Lemma load_plus (b : list BYTE) p n m :
  0 <= p -> 0 <= n -> 0 <= m ->
  load b p (n + m) = load b p n ++ load b (p + n) m.
Proof.
  intros Hp Hn Hm. unfold load.
  replace (Z.to_nat (n + m)) with (Z.to_nat n + Z.to_nat m)%nat by lia.
  rewrite firstn_plus, skipn_skipn. do 3 f_equal. lia.
Qed.

Lemma store_0 (b d : list BYTE) : store b 0 d = d ++ skipn (length d) b.
Proof. reflexivity. Qed.

Lemma length_store (b d : list BYTE) p :
  0 <= p -> p + Z.of_nat (length d) <= Z.of_nat (length b) ->
  length (store b p d) = length b.
Proof.
  intros Hp H. unfold store. rewrite !length_app, length_firstn, length_skipn. lia.
Qed.

Lemma app_inv_length {A} (a c b d : list A) :
  length a = length c -> a ++ b = c ++ d -> a = c /\ b = d.
Proof.
  revert c. induction a as [|x a IH]; intros [|y c] Hl H; try discriminate.
  - now split.
  - cbn in H. injection H as -> H. injection Hl as Hl.
    destruct (IH c Hl H) as [-> ->]. now split.
Qed.

(** ** The primitives *)

Lemma fread_zero p s : fread p 0 s = Ret 0 s.
Proof. reflexivity. Qed.

Lemma fread_full p n s d rest :
  0 <= p -> 0 < n -> stream s = d ++ rest -> Z.of_nat (length d) = n ->
  p + n <= Z.of_nat (length (buf s)) ->
  fread p n s = Ret 1 (mkState (store (buf s) p d) rest (out s) (err s)).
Proof.
  intros Hp Hn Hs Hd Hfit. unfold fread.
  replace (n =? 0) with false by (symmetry; apply Z.eqb_neq; lia).
  rewrite Hs, length_app.
  replace (Z.min n (Z.of_nat (length d + length rest))) with n by lia.
  replace (p + n <=? Z.of_nat (length (buf s))) with true
    by (symmetry; apply Z.leb_le; lia).
  replace (n <=? Z.of_nat (length d + length rest)) with true
    by (symmetry; apply Z.leb_le; lia).
  replace (Z.to_nat n) with (length d) by lia.
  rewrite firstn_app, firstn_all, Nat.sub_diag. cbn [firstn]. rewrite app_nil_r.
  rewrite skipn_app, skipn_all, Nat.sub_diag. reflexivity.
Qed.

Lemma fread_short p n s :
  0 <= p -> Z.of_nat (length (stream s)) < n ->
  p + Z.of_nat (length (stream s)) <= Z.of_nat (length (buf s)) ->
  fread p n s = Ret 0 (mkState (store (buf s) p (stream s)) [] (out s) (err s)).
Proof.
  intros Hp Hn Hfit. unfold fread.
  replace (n =? 0) with false by (symmetry; apply Z.eqb_neq; lia).
  replace (Z.min n (Z.of_nat (length (stream s)))) with (Z.of_nat (length (stream s))) by lia.
  replace (_ <=? Z.of_nat (length (buf s))) with true
    by (symmetry; apply Z.leb_le; lia).
  replace (n <=? Z.of_nat (length (stream s))) with false
    by (symmetry; apply Z.leb_gt; lia).
  rewrite Nat2Z.id, firstn_all, skipn_all. reflexivity.
Qed.

Lemma rd_int_ok host p n s :
  0 <= p -> p + n <= Z.of_nat (length (buf s)) ->
  rd_int host p n s = Ret (host_val host (load (buf s) p n)) s.
Proof.
  intros Hp H. unfold rd_int, load_int.
  replace (0 <=? p) with true by (symmetry; apply Z.leb_le; lia).
  now replace (p + n <=? _) with true by (symmetry; apply Z.leb_le; lia).
Qed.

Lemma memcpy_ok dst src n s :
  dst + n <= Z.of_nat (length (buf s)) -> src + n <= Z.of_nat (length (buf s)) ->
  memcpy dst src n s
  = Ret tt (mkState (store (buf s) dst (load (buf s) src n)) (stream s) (out s) (err s)).
Proof.
  intros H1 H2. unfold memcpy.
  replace (dst + n <=? _) with true by (symmetry; apply Z.leb_le; lia).
  now replace (src + n <=? _) with true by (symmetry; apply Z.leb_le; lia).
Qed.

(** ** The field-by-field parse *)

Lemma take_Some n bs a rest :
  0 <= n -> take n bs = Some (a, rest) ->
  bs = a ++ rest /\ Z.of_nat (length a) = n.
Proof.
  intros Hn H. unfold take in H.
  destruct (n <=? Z.of_nat (length bs)) eqn:E; [|discriminate].
  apply Z.leb_le in E. injection H as <- <-. split.
  - symmetry. apply firstn_skipn.
  - rewrite length_firstn. lia.
Qed.

Lemma take_app n a rest :
  Z.of_nat (length a) = n -> take n (a ++ rest) = Some (a, rest).
Proof.
  intros H. unfold take. rewrite length_app.
  replace (n <=? _) with true by (symmetry; apply Z.leb_le; lia).
  replace (Z.to_nat n) with (length a) by lia.
  rewrite firstn_app, firstn_all, Nat.sub_diag, skipn_app, skipn_all, Nat.sub_diag.
  cbn [firstn skipn app]. now rewrite app_nil_r.
Qed.

Lemma take_None n bs :
  take n bs = None -> Z.of_nat (length bs) < n.
Proof.
  unfold take. destruct (n <=? Z.of_nat (length bs)) eqn:E; [discriminate|].
  intros _. now apply Z.leb_gt.
Qed.

(** The bytes of a Legacy record, as the parse found them. *)
Lemma spec_legacy_record_Some host bs r rest :
  spec_legacy_record host bs = Some (r, rest) ->
  exists psz bsz cf,
    bs = uuid r ++ parent_uuid r ++ psz ++ bsz ++ cf ++
         pub_data r ++ blob r ++ rest /\
    length (uuid r) = 16%nat /\ length (parent_uuid r) = 16%nat /\
    length psz = 2%nat /\ length bsz = 2%nat /\ length cf = 2%nat /\
    host_val host psz = pub_data_size r /\
    host_val host bsz = blob_size r /\
    host_val host cf = cache_flags r /\
    vendor_data r = [].
Proof.
  unfold spec_legacy_record. intros H.
  destruct (take 16 bs) as [[u b1]|] eqn:E1; [|discriminate].
  destruct (take 16 b1) as [[pu b2]|] eqn:E2; [|discriminate].
  destruct (take 2 b2) as [[psz b3]|] eqn:E3; [|discriminate].
  destruct (take 2 b3) as [[bsz b4]|] eqn:E4; [|discriminate].
  destruct (take 2 b4) as [[cf b5]|] eqn:E5; [|discriminate].
  destruct (take (host_val host psz) b5) as [[pub b6]|] eqn:E6; [|discriminate].
  destruct (take (host_val host bsz) b6) as [[bl b7]|] eqn:E7; [|discriminate].
  injection H as <- <-.
  apply take_Some in E1, E2, E3, E4, E5; try lia.
  apply take_Some in E6; [|apply host_val_nonneg].
  apply take_Some in E7; [|apply host_val_nonneg].
  destruct E1 as [-> L1], E2 as [-> L2], E3 as [-> L3], E4 as [-> L4],
           E5 as [-> L5], E6 as [-> L6], E7 as [-> L7].
  exists psz, bsz, cf. cbn [uuid parent_uuid pub_data blob vendor_data cache_flags].
  unfold pub_data_size, blob_size. cbn [pub_data blob].
  repeat split; try lia; reflexivity.
Qed.

(** ** printkey_0 *)

Lemma bind_printf {B} fmt args (k : unit -> M B) s :
  bind (printf fmt args) k s = k tt (add_out s [Printf fmt args]).
Proof. reflexivity. Qed.

Lemma bind_PRINTERR {B} fmt args (k : unit -> M B) s :
  bind (PRINTERR fmt args) k s = k tt (add_err s [Printf fmt args]).
Proof. reflexivity. Qed.

Lemma bind_print_hex {B} p len (k : unit -> M B) s :
  0 <= p -> 0 <= len -> length (buf s) = 1024%nat ->
  p + round_up_4 len <= 1024 ->
  bind (print_hex p len) k s
  = k tt (add_out s (hex_dump (load (buf s) p (round_up_4 len)))).
Proof.
  intros Hp Hlen Hb Hfit. apply bind_Ret. apply print_hex_ok; lia.
Qed.

Lemma bind_rd_int {B} host p n (k : Z -> M B) s :
  0 <= p -> p + n <= Z.of_nat (length (buf s)) ->
  bind (rd_int host p n) k s = k (host_val host (load (buf s) p n)) s.
Proof. intros. apply bind_Ret. now apply rd_int_ok. Qed.

(** With the fixed-size part of a record at the front of the buffer,
    [printkey_0] prints the fixed-size fields and goes on to the data. *)
Lemma printkey_0_header host i s r psz bsz cf tail :
  buf s = uuid r ++ parent_uuid r ++ psz ++ bsz ++ cf ++ tail ->
  length (buf s) = 1024%nat ->
  length (uuid r) = 16%nat -> length (parent_uuid r) = 16%nat ->
  length psz = 2%nat -> length bsz = 2%nat -> length cf = 2%nat ->
  host_val host psz = pub_data_size r ->
  host_val host bsz = blob_size r ->
  host_val host cf = cache_flags r ->
  printkey_0 host i s
  = printkey_0_data i (pub_data_size r) (blob_size r)
      (add_out s (dump_key_fixed i r)).
Proof.
  intros Hbuf Hlen Lu Lpu Lpsz Lbsz Lcf Vpsz Vbsz Vcf.
  unfold printkey_0, sizeof_TSS_UUID, sizeof_UINT16.
  rewrite bind_printf.
  rewrite bind_print_hex by (cbn [buf add_out]; try lia; vm_compute; discriminate).
  rewrite add_out_add_out. rewrite bind_printf. rewrite add_out_add_out.
  rewrite bind_print_hex by (cbn [buf add_out]; try lia; vm_compute; discriminate).
  rewrite add_out_add_out.
  rewrite !bind_rd_int by (cbn [buf add_out]; lia).
  rewrite !bind_printf, !add_out_add_out.
  cbn [buf add_out].
  change (round_up_4 16) with 16.
  assert (E1 : load (buf s) 0 16 = uuid r) by (rewrite Hbuf; apply load_prefix; lia).
  assert (E2 : load (buf s) 16 16 = parent_uuid r).
  { rewrite Hbuf. rewrite load_app_r by lia.
    replace (16 - Z.of_nat (length (uuid r))) with 0 by lia.
    apply load_prefix; lia. }
  assert (E3 : load (buf s) 32 2 = psz).
  { rewrite Hbuf. rewrite load_app_r by lia.
    replace (32 - Z.of_nat (length (uuid r))) with 16 by lia.
    rewrite load_app_r by lia.
    replace (16 - Z.of_nat (length (parent_uuid r))) with 0 by lia.
    apply load_prefix; lia. }
  assert (E4 : load (buf s) 34 2 = bsz).
  { rewrite Hbuf. rewrite load_app_r by lia.
    replace (34 - Z.of_nat (length (uuid r))) with 18 by lia.
    rewrite load_app_r by lia.
    replace (18 - Z.of_nat (length (parent_uuid r))) with 2 by lia.
    rewrite load_app_r by lia.
    replace (2 - Z.of_nat (length psz)) with 0 by lia.
    apply load_prefix; lia. }
  assert (E5 : load (buf s) 36 2 = cf).
  { rewrite Hbuf. rewrite load_app_r by lia.
    replace (36 - Z.of_nat (length (uuid r))) with 20 by lia.
    rewrite load_app_r by lia.
    replace (20 - Z.of_nat (length (parent_uuid r))) with 4 by lia.
    rewrite load_app_r by lia.
    replace (4 - Z.of_nat (length psz)) with 2 by lia.
    rewrite load_app_r by lia.
    replace (2 - Z.of_nat (length bsz)) with 0 by lia.
    apply load_prefix; lia. }
  change (2 * 16 + 2 * 2) with 36. change (2 * 16 + 2) with 34.
  change (2 * 16) with 32.
  rewrite E1, E2, E3, E4, E5, Vpsz, Vbsz, Vcf.
  match goal with |- _ (add_out s ?evs) = _ =>
    replace evs with (dump_key_fixed i r)
      by (unfold dump_key_fixed; rewrite <- !app_assoc; reflexivity)
  end.
  reflexivity.
Qed.

(** The data of the record are all there: they are read and dumped. *)
Lemma printkey_0_data_full i s r rest :
  length (buf s) = 1024%nat ->
  stream s = pub_data r ++ blob r ++ rest ->
  fits_buf r -> has_data r ->
  let n := pub_data_size r + blob_size r in
  let b' := store (buf s) 0 (pub_data r ++ blob r) in
  let pad := (load b' (pub_data_size r) (pad_len (pub_data_size r)),
              load b' n (pad_len (blob_size r))) in
  printkey_0_data i (pub_data_size r) (blob_size r) s
  = Ret 0 (mkState b' rest (out s ++ dump_key_data i r pad) (err s)).
Proof.
  intros Hlen Hstream [Hfit1 Hfit2] Hdata n b' pad.
  unfold sizeof_buf, has_data in *. unfold printkey_0_data. fold n.
  assert (Hpsz : 0 <= pub_data_size r) by (unfold pub_data_size; lia).
  assert (Hbsz : 0 <= blob_size r) by (unfold blob_size; lia).
  pose proof (round_up_4_bounds _ Hpsz) as Rp.
  pose proof (round_up_4_bounds _ Hbsz) as Rb.
  assert (Hd : Z.of_nat (length (pub_data r ++ blob r)) = n)
    by (rewrite length_app; unfold n, pub_data_size, blob_size; lia).
  assert (Hrd : fread 0 n s = Ret 1 (mkState b' rest (out s) (err s))).
  { unfold b'. apply (fread_full 0 n s (pub_data r ++ blob r) rest); try lia.
    rewrite Hstream. now rewrite app_assoc. }
  rewrite (bind_Ret _ _ _ _ _ Hrd).
  cbn [Z.eqb negb Pos.eqb].
  assert (Lb' : length b' = 1024%nat)
    by (unfold b'; rewrite length_store; lia).
  assert (Hb' : b' = pub_data r ++ blob r ++ skipn (Z.to_nat n) (buf s)).
  { unfold b'. rewrite store_0, <- app_assoc. do 3 f_equal. lia. }
  assert (P1 : load b' 0 (round_up_4 (pub_data_size r)) = pub_data r ++ fst pad).
  { replace (round_up_4 (pub_data_size r))
      with (pub_data_size r + pad_len (pub_data_size r)) by (unfold pad_len; lia).
    rewrite load_plus by (unfold pad_len; lia). f_equal.
    rewrite Hb'. apply load_prefix. reflexivity. }
  assert (P2 : load b' (pub_data_size r) (round_up_4 (blob_size r))
               = blob r ++ snd pad).
  { replace (round_up_4 (blob_size r))
      with (blob_size r + pad_len (blob_size r)) by (unfold pad_len; lia).
    rewrite load_plus by (unfold pad_len; lia). f_equal.
    rewrite Hb'. rewrite load_app_r by (unfold pub_data_size; lia).
    replace (pub_data_size r - Z.of_nat (length (pub_data r))) with 0
      by (unfold pub_data_size; lia).
    apply load_prefix. reflexivity. }
  rewrite bind_printf.
  rewrite bind_print_hex by (cbn [buf add_out]; lia).
  rewrite add_out_add_out, bind_printf, add_out_add_out.
  rewrite bind_print_hex by (cbn [buf add_out]; lia).
  rewrite add_out_add_out.
  unfold ret, add_out. cbn [buf out err stream]. rewrite P1, P2.
  unfold dump_key_data. rewrite <- !app_assoc. reflexivity.
Qed.

(** The data of the record are missing, in part or as a whole, or the
    record declares none: the read fails. *)
Lemma printkey_0_data_short i s psz bsz :
  length (buf s) = 1024%nat ->
  0 <= psz + bsz <= 1024 ->
  psz + bsz = 0 \/ Z.of_nat (length (stream s)) < psz + bsz ->
  exists b' st',
    printkey_0_data i psz bsz s
    = Ret (-1) (mkState b' st' (out s)
                  (err s ++ [Printf "fread: %s: %d members read\n"
                                    [StrError; Int 0]])).
Proof.
  intros Hlen Hn Hshort. unfold printkey_0_data.
  destruct (Z.eq_dec (psz + bsz) 0) as [E|E].
  - rewrite E. exists (buf s), (stream s). now destruct s.
  - destruct Hshort as [H0|Hlt]; [contradiction|].
    rewrite (bind_Ret _ _ _ _ _ (fread_short 0 _ s ltac:(lia) Hlt ltac:(lia))).
    do 2 eexists. reflexivity.
Qed.

Lemma printkey_0_spec host i s r rest psz bsz cf tail :
  buf s = uuid r ++ parent_uuid r ++ psz ++ bsz ++ cf ++ tail ->
  length (buf s) = 1024%nat ->
  length (uuid r) = 16%nat -> length (parent_uuid r) = 16%nat ->
  length psz = 2%nat -> length bsz = 2%nat -> length cf = 2%nat ->
  host_val host psz = pub_data_size r ->
  host_val host bsz = blob_size r ->
  host_val host cf = cache_flags r ->
  stream s = pub_data r ++ blob r ++ rest ->
  fits_buf r ->
  let n := pub_data_size r + blob_size r in
  let b' := store (buf s) 0 (pub_data r ++ blob r) in
  let pad := (load b' (pub_data_size r) (pad_len (pub_data_size r)),
              load b' n (pad_len (blob_size r))) in
  printkey_0 host i s =
    if n =? 0
    then Ret (-1) (add_err (add_out s (dump_key_fixed i r))
                           [Printf "fread: %s: %d members read\n" [StrError; Int 0]])
    else Ret 0 (mkState b' rest (out s ++ dump_key i r pad) (err s)).
Proof.
  intros Hbuf Hlen Lu Lpu Lpsz Lbsz Lcf Vpsz Vbsz Vcf Hstream Hfit n b' pad.
  rewrite (printkey_0_header host i s r psz bsz cf tail) by assumption.
  destruct (n =? 0) eqn:En.
  - apply Z.eqb_eq in En. unfold printkey_0_data. fold n. rewrite En. reflexivity.
  - apply Z.eqb_neq in En.
    rewrite (printkey_0_data_full i _ r rest); cbn [buf stream out err add_out]; auto.
    + unfold dump_key. now rewrite <- app_assoc.
    + unfold has_data, pub_data_size, blob_size in *. fold n. lia.
Qed.

(** ** The loop over the keys of a Legacy store *)

Lemma version_0_for_exit host fuel i u32 s :
  u32 <= i -> version_0_for host fuel i u32 s = Ret 0 s.
Proof.
  intros H. destruct fuel; cbn [version_0_for];
    (replace (i <? u32) with false by (symmetry; apply Z.ltb_ge; lia)); reflexivity.
Qed.

(** One turn of the loop reads one record in the Legacy layout. *)
Lemma version_0_for_step host fuel i u32 s r rest :
  length (buf s) = 1024%nat -> i < u32 ->
  spec_legacy_record host (stream s) = Some (r, rest) ->
  fits_buf r ->
  let n := pub_data_size r + blob_size r in
  let b1 := store (buf s) 0 (firstn 38 (stream s)) in
  let b' := store b1 0 (pub_data r ++ blob r) in
  let pad := (load b' (pub_data_size r) (pad_len (pub_data_size r)),
              load b' n (pad_len (blob_size r))) in
  version_0_for host (S fuel) i u32 s =
    if n =? 0
    then Ret (-1)
           (mkState b1 rest (out s ++ dump_key_fixed (int_of_u32 i) r)
              (err s ++ [Printf "fread: %s: %d members read\n" [StrError; Int 0]]))
    else version_0_for host fuel (wrap32 (i + 1)) u32
           (mkState b' rest (out s ++ dump_key (int_of_u32 i) r pad) (err s)).
Proof.
  intros Hlen Hi Hrec Hfit n b1 b' pad.
  destruct (spec_legacy_record_Some _ _ _ _ Hrec)
    as (psz & bsz & cf & Hs & Lu & Lpu & Lpsz & Lbsz & Lcf & Vpsz & Vbsz & Vcf & _).
  set (hdr := uuid r ++ parent_uuid r ++ psz ++ bsz ++ cf).
  assert (Lhdr : length hdr = 38%nat) by (unfold hdr; rewrite !length_app; lia).
  assert (Hs' : stream s = hdr ++ pub_data r ++ blob r ++ rest)
    by (rewrite Hs; unfold hdr; rewrite <- !app_assoc; reflexivity).
  assert (Hhdr : firstn 38 (stream s) = hdr).
  { rewrite Hs', firstn_app, <- Lhdr, firstn_all, Nat.sub_diag.
    cbn [firstn]. apply app_nil_r. }
  assert (Hb1 : b1 = uuid r ++ parent_uuid r ++ psz ++ bsz ++ cf ++ skipn 38 (buf s)).
  { unfold b1. rewrite Hhdr, store_0, Lhdr. unfold hdr.
    rewrite <- !app_assoc. reflexivity. }
  assert (Lb1 : length b1 = 1024%nat)
    by (unfold b1; rewrite Hhdr, length_store; lia).
  cbn [version_0_for].
  replace (i <? u32) with true by (symmetry; apply Z.ltb_lt; lia).
  unfold sizeof_TSS_UUID, sizeof_UINT16. change (2 * 16 + 3 * 2) with 38.
  assert (Hrd : fread 0 38 s
                = Ret 1 (mkState b1 (pub_data r ++ blob r ++ rest) (out s) (err s))).
  { unfold b1. rewrite Hhdr. apply fread_full; try lia. exact Hs'. }
  rewrite (bind_Ret _ _ _ _ _ Hrd). cbn [Z.eqb Pos.eqb negb].
  pose proof (printkey_0_spec host (int_of_u32 i)
                (mkState b1 (pub_data r ++ blob r ++ rest) (out s) (err s))
                r rest psz bsz cf (skipn 38 (buf s))
                Hb1 Lb1 Lu Lpu Lpsz Lbsz Lcf Vpsz Vbsz Vcf eq_refl Hfit) as Hk.
  cbn [buf stream out err] in Hk. cbv zeta in Hk. fold n b' in Hk. fold pad in Hk.
  destruct (n =? 0) eqn:En.
  - rewrite (bind_Ret _ _ _ _ _ Hk). cbn [Z.eqb negb]. unfold ret, add_err, add_out.
    cbn [buf stream out err].
    apply Z.eqb_eq in En. unfold n, pub_data_size, blob_size in En.
    destruct (pub_data r); [|cbn [length] in En; lia].
    destruct (blob r); [|cbn [length] in En; lia].
    reflexivity.
  - rewrite (bind_Ret _ _ _ _ _ Hk). reflexivity.
Qed.

Lemma pad_from_buf_fits (b : list BYTE) r :
  length b = 1024%nat -> fits_buf r ->
  pad_fits r (load b (pub_data_size r) (pad_len (pub_data_size r)),
              load b (pub_data_size r + blob_size r) (pad_len (blob_size r))).
Proof.
  intros Hb [F1 F2]. unfold sizeof_buf in *.
  assert (Hp : 0 <= pub_data_size r) by (unfold pub_data_size; lia).
  assert (Hq : 0 <= blob_size r) by (unfold blob_size; lia).
  pose proof (round_up_4_bounds _ Hp). pose proof (round_up_4_bounds _ Hq).
  unfold pad_fits, pad_len in *. cbn [fst snd].
  rewrite !length_load by lia. lia.
Qed.

Lemma version_0_for_records host : forall n rs fuel i u32 s rest,
  length (buf s) = 1024%nat ->
  0 <= i -> i + Z.of_nat n = u32 -> u32 < 4294967296 -> (n <= fuel)%nat ->
  spec_records (spec_legacy_record host) n (stream s) = Some (rs, rest) ->
  Forall (fun r => fits_buf r /\ has_data r) rs ->
  exists s' pads,
    version_0_for host fuel i u32 s = Ret 0 s' /\
    out s' = out s ++ dump_keys i rs pads /\
    Forall2 pad_fits rs pads /\
    stream s' = rest /\ err s' = err s /\ length (buf s') = 1024%nat.
Proof.
  induction n as [|n IH]; intros rs fuel i u32 s rest Hb Hi Hn Hmax Hfuel Hrs Hall.
  - cbn [spec_records] in Hrs. injection Hrs as <- <-.
    exists s, []. rewrite version_0_for_exit by lia.
    cbn [dump_keys]. rewrite app_nil_r. repeat split; auto.
  - cbn [spec_records] in Hrs.
    destruct (spec_legacy_record host (stream s)) as [[r bs1]|] eqn:Hr; [|discriminate].
    destruct (spec_records _ n bs1) as [[rs' bs2]|] eqn:Hrs'; [|discriminate].
    injection Hrs as <- <-.
    inversion Hall as [|? ? [Hfit Hdata] Hall']; subst.
    destruct fuel as [|fuel]; [lia|].
    rewrite (version_0_for_step host fuel i (i + Z.of_nat (S n)) s r bs1 Hb ltac:(lia) Hr Hfit).
    cbv zeta. unfold has_data in Hdata.
    replace (pub_data_size r + blob_size r =? 0) with false
      by (symmetry; apply Z.eqb_neq; lia).
    rewrite wrap32_small by lia.
    set (b1 := store (buf s) 0 (firstn 38 (stream s))).
    set (b' := store b1 0 (pub_data r ++ blob r)).
    assert (Lb1 : length b1 = 1024%nat).
    { unfold b1. destruct (spec_legacy_record_Some _ _ _ _ Hr)
        as (psz & bsz & cf & Hs & Lu & Lpu & Lpsz & Lbsz & Lcf & _).
      rewrite length_store; [exact Hb|lia|].
      rewrite length_firstn. lia. }
    assert (Lb' : length b' = 1024%nat).
    { unfold b'. destruct Hfit as [F1 F2]. unfold sizeof_buf in *.
      pose proof (round_up_4_bounds (blob_size r) ltac:(unfold blob_size; lia)).
      rewrite length_store; [exact Lb1|lia|].
      rewrite length_app. unfold pub_data_size, blob_size in *. lia. }
    set (pad := (load b' (pub_data_size r) (pad_len (pub_data_size r)),
                 load b' (pub_data_size r + blob_size r) (pad_len (blob_size r)))).
    destruct (IH rs' fuel (i + 1) (i + Z.of_nat (S n))
                (mkState b' bs1 (out s ++ dump_key (int_of_u32 i) r pad) (err s)) bs2)
      as (s' & pads & Hrun & Hout & Hpads & Hst & Herr & Hlen);
      cbn [buf stream out err]; auto; try lia.
    exists s', (pad :: pads). repeat split; auto.
    + rewrite Hout. cbn [out dump_keys]. now rewrite <- app_assoc.
    + constructor; [|exact Hpads]. now apply pad_from_buf_fits.
Qed.

Lemma no_data_nil r :
  pub_data_size r + blob_size r = 0 -> pub_data r = [] /\ blob r = [].
Proof.
  unfold pub_data_size, blob_size. intros H.
  destruct (pub_data r); [|cbn [length] in H; lia].
  destruct (blob r); [|cbn [length] in H; lia]. now split.
Qed.

(** ** version_0_print: the first key *)

Lemma firstn_app_exact {A} (a b : list A) n :
  length a = n -> firstn n (a ++ b) = a.
Proof.
  intros <-. rewrite firstn_app, firstn_all, Nat.sub_diag. cbn [firstn]. apply app_nil_r.
Qed.

Lemma skipn_app_exact {A} (a b : list A) n :
  length a = n -> skipn n (a ++ b) = b.
Proof.
  intros <-. rewrite skipn_app, skipn_all, Nat.sub_diag. reflexivity.
Qed.

(** After the probe the buffer holds [key_count] and the first 17 bytes of
    the first record.  The copy to the front and the read of 21 more bytes
    leave the buffer as a read of the 38 header bytes at offset 0 would. *)
Lemma version_0_print_first_key host s kc h17 tail0 r rest :
  buf s = kc ++ h17 ++ tail0 ->
  length kc = 4%nat -> length h17 = 17%nat -> length (buf s) = 1024%nat ->
  spec_legacy_record host (h17 ++ stream s) = Some (r, rest) ->
  fits_buf r ->
  let u32 := host_val host kc in
  let n := pub_data_size r + blob_size r in
  let lines := [Printf "PS version:        0\n" [];
                Printf "PS number of keys: %u\n" [Int u32]] in
  let b3 := store (buf s) 0 (firstn 38 (h17 ++ stream s)) in
  let b' := store b3 0 (pub_data r ++ blob r) in
  let pad := (load b' (pub_data_size r) (pad_len (pub_data_size r)),
              load b' n (pad_len (blob_size r))) in
  version_0_print host s =
    if n =? 0
    then Ret (-1)
           (mkState b3 rest (out s ++ lines ++ dump_key_fixed 0 r)
              (err s ++ [Printf "fread: %s: %d members read\n" [StrError; Int 0];
                         Printf "printkey_0 failed.\n" []]))
    else version_0_for host (Z.to_nat u32) 1 u32
           (mkState b' rest (out s ++ lines ++ dump_key 0 r pad) (err s)).
Proof.
  intros Hbuf Lkc L17 Hlen Hrec Hfit u32 n lines b3 b' pad.
  destruct (spec_legacy_record_Some _ _ _ _ Hrec)
    as (psz & bsz & cf & Hs & Lu & Lpu & Lpsz & Lbsz & Lcf & Vpsz & Vbsz & Vcf & _).
  set (hdr := uuid r ++ parent_uuid r ++ psz ++ bsz ++ cf).
  assert (Lhdr : length hdr = 38%nat) by (unfold hdr; rewrite !length_app; lia).
  assert (Hs' : h17 ++ stream s = hdr ++ pub_data r ++ blob r ++ rest)
    by (rewrite Hs; unfold hdr; rewrite <- !app_assoc; reflexivity).
  assert (Hhdr : firstn 38 (h17 ++ stream s) = hdr)
    by (rewrite Hs'; now apply firstn_app_exact).
  set (h21 := skipn 17 hdr).
  assert (L21 : length h21 = 21%nat) by (unfold h21; rewrite length_skipn; lia).
  assert (Hsplit : h17 = firstn 17 hdr /\ stream s = h21 ++ pub_data r ++ blob r ++ rest).
  { apply app_inv_length.
    - rewrite length_firstn. lia.
    - rewrite Hs'. unfold h21. rewrite (app_assoc (firstn 17 hdr)).
      now rewrite firstn_skipn. }
  destruct Hsplit as [H17 Hstream].
  assert (Hhh : h17 ++ h21 = hdr) by (rewrite H17; apply firstn_skipn).
  unfold version_0_print, sizeof_UINT32, sizeof_TSS_UUID, sizeof_UINT16.
  change (16 + 3 * 2 - 1) with 21. change (16 + 1) with 17.
  rewrite bind_rd_int by lia.
  replace (load (buf s) 0 4) with kc by (rewrite Hbuf; symmetry; apply load_prefix; lia).
  fold u32. rewrite !bind_printf, add_out_add_out.
  cbn [app]. fold lines.
  assert (Hcpy : memcpy 0 4 17 (add_out s lines)
                 = Ret tt (mkState (h17 ++ skipn 17 (buf s)) (stream s)
                                   (out s ++ lines) (err s))).
  { rewrite memcpy_ok by (cbn [buf add_out]; lia). cbn [buf stream out err add_out].
    replace (load (buf s) 4 17) with h17.
    - rewrite store_0, L17. reflexivity.
    - rewrite Hbuf, load_app_r by lia.
      replace (4 - Z.of_nat (length kc)) with 0 by lia.
      symmetry. apply load_prefix. lia. }
  rewrite (bind_Ret _ _ _ _ _ Hcpy).
  assert (Hb3 : b3 = hdr ++ skipn 38 (buf s))
    by (unfold b3; now rewrite Hhdr, store_0, Lhdr).
  assert (Hrd : fread 17 21 (mkState (h17 ++ skipn 17 (buf s)) (stream s)
                                     (out s ++ lines) (err s))
                = Ret 1 (mkState b3 (pub_data r ++ blob r ++ rest)
                                 (out s ++ lines) (err s))).
  { rewrite (fread_full 17 21 _ h21 (pub_data r ++ blob r ++ rest));
      cbn [buf stream out err]; try lia; try assumption.
    - do 2 f_equal. rewrite Hb3. unfold store. cbn [Z.to_nat].
      change (Pos.to_nat 17) with 17%nat.
      rewrite firstn_app_exact by exact L17.
      rewrite L21, <- Hhh, <- !app_assoc. do 2 f_equal.
      rewrite skipn_app. rewrite (skipn_all2 h17) by lia. cbn [app].
      rewrite skipn_skipn. f_equal. lia.
    - rewrite length_app, length_skipn. lia. }
  rewrite (bind_Ret _ _ _ _ _ Hrd). cbn [Z.eqb Pos.eqb negb].
  assert (Lb3 : length b3 = 1024%nat)
    by (rewrite Hb3, length_app, length_skipn; lia).
  assert (Hb3' : b3 = uuid r ++ parent_uuid r ++ psz ++ bsz ++ cf ++ skipn 38 (buf s))
    by (rewrite Hb3; unfold hdr; rewrite <- !app_assoc; reflexivity).
  pose proof (printkey_0_spec host 0
                (mkState b3 (pub_data r ++ blob r ++ rest) (out s ++ lines) (err s))
                r rest psz bsz cf (skipn 38 (buf s))
                Hb3' Lb3 Lu Lpu Lpsz Lbsz Lcf Vpsz Vbsz Vcf eq_refl Hfit) as Hk.
  cbn [buf stream out err] in Hk. cbv zeta in Hk. fold n b' in Hk. fold pad in Hk.
  destruct (n =? 0) eqn:En; rewrite (bind_Ret _ _ _ _ _ Hk); cbn [Z.eqb negb].
  - rewrite bind_PRINTERR. unfold ret, add_err, add_out.
    cbn [buf stream out err]. rewrite <- !app_assoc.
    apply Z.eqb_eq in En. destruct (no_data_nil r En) as [-> ->]. reflexivity.
  - rewrite <- app_assoc. reflexivity.
Qed.

(** ** The probe of inspect *)

Lemma byte_val_inj x y : byte_val x = byte_val y -> x = y.
Proof.
  unfold byte_val. intros H. apply N2Z.inj in H.
  pose proof (Byte.of_to_N x) as Hx. pose proof (Byte.of_to_N y) as Hy.
  rewrite H in Hx. congruence.
Qed.

Lemma memcmp_bytes_eq : forall a b,
  length a = length b -> (memcmp_bytes a b = 0 <-> a = b).
Proof.
  induction a as [|x a IH]; intros [|y b] Hl; try discriminate.
  - cbn. tauto.
  - cbn [memcmp_bytes]. injection Hl as Hl.
    destruct (byte_val x =? byte_val y) eqn:E.
    + apply Z.eqb_eq, byte_val_inj in E. subst y. rewrite (IH b Hl).
      split; [intros ->; reflexivity|intros H; now injection H].
    + apply Z.eqb_neq in E. split.
      * destruct (byte_val x <? byte_val y); discriminate.
      * intros H. injection H as -> _. now elim E.
Qed.

Lemma load_app_inside (a b : list BYTE) p n :
  0 <= p -> 0 <= n -> p + n <= Z.of_nat (length a) ->
  load (a ++ b) p n = load a p n.
Proof.
  intros Hp Hn H. unfold load. rewrite skipn_app, firstn_app, length_skipn.
  replace (Z.to_nat n - (length a - Z.to_nat p))%nat with 0%nat by lia.
  cbn [firstn]. apply app_nil_r.
Qed.

Lemma looks_versioned_prefix host SRK d rest :
  length d = 21%nat ->
  looks_versioned host SRK (d ++ rest) = looks_versioned host SRK d.
Proof.
  intros H. destruct d as [|b0 d]; [discriminate|].
  unfold looks_versioned. rewrite <- app_comm_cons.
  rewrite (app_comm_cons d rest b0).
  rewrite !load_app_inside by (rewrite ?H; lia). reflexivity.
Qed.

(** What [looks_versioned] tests, said on the bytes. *)
Lemma looks_versioned_true host SRK bs :
  length SRK = 16%nat -> (21 <= length bs)%nat ->
  (looks_versioned host SRK bs = true <->
   nth_error bs 0 = Some Byte.x01 /\
   host_val host (load bs 1 4) <> 0 /\
   load bs 5 16 = SRK).
Proof.
  intros HS Hl. destruct bs as [|b0 bs']; [cbn in Hl; lia|].
  unfold looks_versioned. cbn [nth_error].
  rewrite !andb_true_iff, negb_true_iff, Z.eqb_eq, Z.eqb_neq, Z.eqb_eq.
  rewrite memcmp_bytes_eq by (rewrite length_load; lia).
  split.
  - intros [[H1 H2] H3]. repeat split; auto.
    f_equal. apply byte_val_inj. exact H1.
  - intros (H1 & H2 & H3). injection H1 as ->. repeat split; auto.
Qed.

Lemma bind_get {B} (k : state -> M B) s : bind get k s = k s s.
Proof. reflexivity. Qed.

Lemma inspect_probe host SRK s d rest :
  stream s = d ++ rest -> length d = 21%nat -> length (buf s) = 1024%nat ->
  inspect host SRK s =
    if looks_versioned host SRK d
    then version_1_print host (mkState (store (buf s) 0 d) rest (out s) (err s))
    else version_0_print host (mkState (store (buf s) 0 d) rest (out s) (err s)).
Proof.
  intros Hs Hd Hb. unfold inspect, sizeof_TSS_UUID, sizeof_UINT32.
  change (16 + 4 + 1) with 21.
  rewrite (bind_Ret _ _ _ _ _ (fread_full 0 21 s d rest ltac:(lia) ltac:(lia) Hs
                                 ltac:(lia) ltac:(lia))).
  cbn [Z.eqb Pos.eqb negb].
  set (s1 := mkState (store (buf s) 0 d) rest (out s) (err s)).
  assert (Hb1 : buf s1 = d ++ skipn 21 (buf s))
    by (unfold s1; cbn [buf]; now rewrite store_0, Hd).
  assert (Lb1 : length (buf s1) = 1024%nat)
    by (rewrite Hb1, length_app, length_skipn; lia).
  destruct d as [|b0 d']; [discriminate|].
  assert (Hrd : rd 0 s1 = Ret (byte_val b0) s1)
    by (apply rd_at; [lia|now rewrite Hb1]).
  rewrite (bind_Ret _ _ _ _ _ Hrd).
  unfold looks_versioned.
  destruct (byte_val b0 =? 1); cbn [andb]; [|reflexivity].
  rewrite bind_rd_int by lia.
  rewrite Hb1, load_app_inside by (rewrite ?Hd; lia).
  destruct (host_val host (load (b0 :: d') 1 4) =? 0); cbn [negb andb]; [reflexivity|].
  rewrite bind_get. rewrite Hb1, load_app_inside by (rewrite ?Hd; lia).
  destruct (memcmp_bytes (load (b0 :: d') 5 16) SRK =? 0); reflexivity.
Qed.

Lemma inspect_probe_short host SRK s :
  (length (stream s) < 21)%nat -> length (buf s) = 1024%nat ->
  inspect host SRK s
  = Ret (-1) (mkState (store (buf s) 0 (stream s)) [] (out s)
                      (err s ++ [Printf "fread: %s\n" [StrError]])).
Proof.
  intros Hs Hb. unfold inspect, sizeof_TSS_UUID, sizeof_UINT32.
  change (16 + 4 + 1) with 21.
  rewrite (bind_Ret _ _ _ _ _ (fread_short 0 21 s ltac:(lia) ltac:(lia) ltac:(lia))).
  reflexivity.
Qed.

(** ** version_1_print *)

Lemma version_1_for_done host : forall fuel i s,
  length (buf s) = 1024%nat -> 0 <= i ->
  wrap32 (host_val host (load (buf s) 1 4) - 1) - i <= Z.of_nat fuel ->
  version_1_for host fuel i s = Ret 0 s.
Proof.
  induction fuel as [|fuel IH]; intros i s Hb Hi Hf.
  - cbn [version_1_for]. unfold sizeof_UINT32. rewrite bind_rd_int by lia.
    replace (i <? _) with false by (symmetry; apply Z.ltb_ge; lia). reflexivity.
  - cbn [version_1_for]. unfold sizeof_UINT32. rewrite bind_rd_int by lia.
    destruct (i <? _) eqn:E; [|reflexivity].
    apply Z.ltb_lt in E. unfold printkey_1.
    rewrite (bind_Ret (ret 0) _ s 0 s eq_refl). cbn [Z.eqb negb].
    assert (Hw : wrap32 (host_val host (load (buf s) 1 4) - 1) < 4294967296)
      by (unfold wrap32; apply Z.mod_pos_bound; lia).
    rewrite wrap32_small by lia. apply IH; lia.
Qed.

(** [version_1_print] prints the two header lines and nothing else; it reads
    nothing from the stream. *)
Lemma version_1_print_spec host s :
  length (buf s) = 1024%nat ->
  version_1_print host s
  = Ret 0 (add_out s [Printf "PS version:        1\n" [];
                      Printf "PS number of keys: %u\n"
                             [Int (host_val host (load (buf s) 1 4))]]).
Proof.
  intros Hb. unfold version_1_print, sizeof_UINT32.
  rewrite bind_rd_int by lia. rewrite !bind_printf, add_out_add_out.
  apply version_1_for_done; cbn [buf add_out]; lia.
Qed.

(** ** Output is only ever appended *)

Lemma grows_ret {A} (a : A) : grows (ret a).
Proof. intros s a' s' H. injection H as _ <-. exists []. now rewrite app_nil_r. Qed.

Lemma grows_bind {A B} (m : M A) (k : A -> M B) :
  grows m -> (forall a, grows (k a)) -> grows (bind m k).
Proof.
  intros Hm Hk s b s' H. unfold bind in H.
  destruct (m s) as [a s1| |] eqn:E; try discriminate.
  destruct (Hm _ _ _ E) as [e1 H1]. destruct (Hk a _ _ _ H) as [e2 H2].
  exists (e1 ++ e2). now rewrite H2, H1, app_assoc.
Qed.

Lemma grows_same {A} (m : M A) :
  (forall s a s', m s = Ret a s' -> out s' = out s) -> grows m.
Proof.
  intros Hm s a s' H. exists []. rewrite app_nil_r. eauto.
Qed.

Lemma grows_printf fmt args : grows (printf fmt args).
Proof. intros s a s' H. injection H as _ <-. now exists [Printf fmt args]. Qed.

Lemma grows_PRINTERR fmt args : grows (PRINTERR fmt args).
Proof. apply grows_same. intros s a s' H. now injection H as _ <-. Qed.

Lemma grows_rd idx : grows (rd idx).
Proof.
  apply grows_same. intros s a s' H. unfold rd in H.
  destruct (_ && _); [|discriminate].
  destruct (nth_error _ _); [|discriminate]. now injection H as _ <-.
Qed.

Lemma grows_rd_int host p n : grows (rd_int host p n).
Proof.
  apply grows_same. intros s a s' H. unfold rd_int in H.
  destruct (_ && _); [|discriminate]. now injection H as _ <-.
Qed.

Lemma grows_memcpy dst src n : grows (memcpy dst src n).
Proof.
  apply grows_same. intros s a s' H. unfold memcpy in H.
  destruct (_ && _); [|discriminate]. now injection H as _ <-.
Qed.

Lemma grows_fread p n : grows (fread p n).
Proof.
  apply grows_same. intros s a s' H. unfold fread in H.
  destruct (n =? 0); [now injection H as _ <-|].
  destruct (_ <=? _); [|discriminate]. now injection H as _ <-.
Qed.

Lemma grows_get : grows get.
Proof. apply grows_same. intros s a s' H. now injection H as _ <-. Qed.

Lemma grows_diverges {A} : grows (@diverges A).
Proof. intros s a s' H. discriminate. Qed.

Create HintDb grows.

#[local] Hint Resolve grows_ret grows_printf grows_PRINTERR grows_rd grows_rd_int
  grows_memcpy grows_fread grows_get grows_diverges : grows.

Ltac grows_steps :=
  repeat first
    [ solve [auto with grows]
    | apply grows_bind; [|intros ?]
    | match goal with |- grows (if ?c then _ else _) => destruct c end ].

Lemma grows_print_hex_for : forall fuel p len i j, grows (print_hex_for fuel p len i j).
Proof.
  induction fuel as [|fuel IH]; intros p len i j; cbn [print_hex_for]; grows_steps.
Qed.

Lemma grows_print_hex_while : forall fuel p len i, grows (print_hex_while fuel p len i).
Proof.
  induction fuel as [|fuel IH]; intros p len i; cbn [print_hex_while]; grows_steps.
  apply grows_print_hex_for.
Qed.

Lemma grows_print_hex p len : grows (print_hex p len).
Proof. apply grows_print_hex_while. Qed.

#[local] Hint Resolve grows_print_hex : grows.

Lemma grows_printkey_0 host i : grows (printkey_0 host i).
Proof. unfold printkey_0. grows_steps. Qed.

#[local] Hint Resolve grows_printkey_0 : grows.

Lemma grows_version_0_for host : forall fuel i u32, grows (version_0_for host fuel i u32).
Proof.
  induction fuel as [|fuel IH]; intros i u32; cbn [version_0_for]; grows_steps.
Qed.

(** Whatever [version_0_print] goes on to do, when it returns its output
    starts with the line that names version 0. *)
Lemma version_0_print_first_line host s rc s' :
  version_0_print host s = Ret rc s' ->
  exists evs, out s' = out s ++ Printf "PS version:        0\n" [] :: evs.
Proof.
  unfold version_0_print. intros H. unfold bind at 1 in H.
  destruct (rd_int host 0 sizeof_UINT32 s) as [u32 s0| |] eqn:E; try discriminate.
  assert (s0 = s).
  { unfold rd_int in E. destruct (_ && _); [|discriminate]. now injection E as _ <-. }
  subst s0. rewrite bind_printf in H.
  match type of H with ?m _ = _ => assert (G : grows m) end.
  { grows_steps. apply grows_version_0_for. }
  destruct (G _ _ _ H) as [evs Hevs]. exists evs.
  rewrite Hevs. cbn [out add_out]. now rewrite <- app_assoc.
Qed.

Lemma looks_versioned_probe host SRK bs :
  length SRK = 16%nat -> (21 <= length bs)%nat ->
  (looks_versioned host SRK (firstn 21 bs) = true <->
   nth_error bs 0 = Some Byte.x01 /\
   host_val host (load bs 1 4) <> 0 /\
   load bs 5 16 = SRK).
Proof.
  intros HS Hl.
  rewrite <- (looks_versioned_prefix host SRK (firstn 21 bs) (skipn 21 bs))
    by (rewrite length_firstn; lia).
  rewrite firstn_skipn. now apply looks_versioned_true.
Qed.

(** C1: once the first 21 bytes are read, [inspect] hands the store to
    [version_1_print] if and only if byte 0 is 1, the [UINT32] in bytes 1..4
    (host order) is not zero and bytes 5..20 equal the storage-root
    identifier; in every other case it hands it to [version_0_print].  Seen
    from outside: whenever [inspect] returns, the first line it printed names
    version 1 in the first case and version 0 in the second. *)
Theorem inspect_dialect_detection host SRK s :
  length SRK = 16%nat ->
  length (buf s) = 1024%nat ->
  (21 <= length (stream s))%nat ->
  let s1 := mkState (store (buf s) 0 (firstn 21 (stream s)))
                    (skipn 21 (stream s)) (out s) (err s) in
  let versioned :=
    nth_error (stream s) 0 = Some Byte.x01 /\
    host_val host (load (stream s) 1 4) <> 0 /\
    load (stream s) 5 16 = SRK in
  (versioned -> inspect host SRK s = version_1_print host s1) /\
  (~ versioned -> inspect host SRK s = version_0_print host s1) /\
  (forall rc s', inspect host SRK s = Ret rc s' ->
     (versioned <->
      exists evs, out s' = out s ++ Printf "PS version:        1\n" [] :: evs) /\
     (~ versioned <->
      exists evs, out s' = out s ++ Printf "PS version:        0\n" [] :: evs)).
Proof.
  intros HS Hb Hl s1 versioned.
  pose proof (looks_versioned_probe host SRK (stream s) HS Hl) as Hv.
  fold versioned in Hv.
  pose proof (inspect_probe host SRK s (firstn 21 (stream s)) (skipn 21 (stream s))
                (eq_sym (firstn_skipn 21 (stream s)))
                ltac:(rewrite length_firstn; lia) Hb) as Hp.
  fold s1 in Hp.
  assert (Lb1 : length (buf s1) = 1024%nat).
  { unfold s1. cbn [buf]. rewrite length_store; [exact Hb|lia|].
    rewrite length_firstn. lia. }
  assert (H1 : versioned -> inspect host SRK s = version_1_print host s1).
  { intros V. apply Hv in V. now rewrite V in Hp. }
  assert (H0 : ~ versioned -> inspect host SRK s = version_0_print host s1).
  { intros V. destruct (looks_versioned host SRK (firstn 21 (stream s)));
      [elim V; now apply Hv|exact Hp]. }
  split; [exact H1|]. split; [exact H0|].
  intros rc s' Hr.
  destruct (looks_versioned host SRK (firstn 21 (stream s))) eqn:E.
  - assert (V : versioned) by now apply Hv.
    rewrite (H1 V), version_1_print_spec in Hr by exact Lb1.
    injection Hr as _ <-. cbn [out add_out s1]. split; split.
    + intros _. eexists. reflexivity.
    + intros _. exact V.
    + intros NV. now elim NV.
    + intros [evs He]. apply app_inv_head in He. discriminate.
  - assert (NV : ~ versioned) by (intros V; apply Hv in V; congruence).
    rewrite (H0 NV) in Hr.
    destruct (version_0_print_first_line _ _ _ _ Hr) as [evs He].
    cbn [out s1] in He. split; split.
    + intros V. now elim NV.
    + intros [evs' He']. rewrite He in He'. apply app_inv_head in He'. discriminate.
    + intros _. now exists evs.
    + intros _. exact NV.
Qed.

Lemma inspect_dialect_detection_witness :
  inspect LittleEndian TSS_UUID_SRK (opened example_versioned_store)
  = version_1_print LittleEndian
      (mkState (store (buf initial_state) 0 (firstn 21 example_versioned_store))
               (skipn 21 example_versioned_store) [] []).
Proof.
  refine (proj1 (inspect_dialect_detection LittleEndian TSS_UUID_SRK
                   (opened example_versioned_store) _ _ _) _).
  - reflexivity.
  - reflexivity.
  - vm_compute. lia.
  - split; [reflexivity|]. split; [vm_compute; discriminate|reflexivity].
Defined.

(** ** A whole Legacy store *)

Lemma le_val_bound l : le_val l < 256 ^ Z.of_nat (length l).
Proof.
  induction l as [|b l IH]; cbn [le_val length]; [reflexivity|].
  pose proof (byte_val_range b).
  rewrite Nat2Z.inj_succ, Z.pow_succ_r by lia. lia.
Qed.

Lemma host_val_bound host l : host_val host l < 256 ^ Z.of_nat (length l).
Proof.
  destruct host; cbn [host_val]; [apply le_val_bound|].
  rewrite <- length_rev. apply le_val_bound.
Qed.

(** The start of a Legacy store that holds at least one record. *)
Lemma legacy_store_start host bs kc r rs bs1 rest n :
  take 4 bs = Some (kc, bs1) ->
  spec_records (spec_legacy_record host) (S n) bs1 = Some (r :: rs, rest) ->
  exists bs2,
    bs = (kc ++ firstn 17 bs1) ++ skipn 17 bs1 /\
    length (kc ++ firstn 17 bs1) = 21%nat /\ length kc = 4%nat /\
    length (firstn 17 bs1) = 17%nat /\
    spec_legacy_record host bs1 = Some (r, bs2) /\
    spec_records (spec_legacy_record host) n bs2 = Some (rs, rest).
Proof.
  intros Ht Hr. apply take_Some in Ht; [|lia]. destruct Ht as [-> Lkc].
  cbn [spec_records] in Hr.
  destruct (spec_legacy_record host bs1) as [[r' bs2]|] eqn:E; [|discriminate].
  destruct (spec_records _ n bs2) as [[rs' rest']|] eqn:E'; [|discriminate].
  injection Hr as -> -> ->. exists bs2.
  destruct (spec_legacy_record_Some _ _ _ _ E)
    as (psz & bsz & cf & Hs & Lu & Lpu & Lpsz & Lbsz & Lcf & _).
  assert (38 <= length bs1)%nat by (rewrite Hs, !length_app; lia).
  assert (L17 : length (firstn 17 bs1) = 17%nat) by (rewrite length_firstn; lia).
  repeat split; auto; try lia.
  - now rewrite <- app_assoc, firstn_skipn.
  - rewrite length_app. lia.
Qed.

Lemma legacy_first_key_then_rest host s kc h17 tail0 r rs bs2 rest n :
  buf s = kc ++ h17 ++ tail0 ->
  length kc = 4%nat -> length h17 = 17%nat -> length (buf s) = 1024%nat ->
  spec_legacy_record host (h17 ++ stream s) = Some (r, bs2) ->
  spec_records (spec_legacy_record host) n bs2 = Some (rs, rest) ->
  n = Z.to_nat (host_val host kc - 1) ->
  Forall (fun r => fits_buf r /\ has_data r) (r :: rs) ->
  exists s' pads,
    version_0_print host s = Ret 0 s' /\
    out s' = out s ++ dump_legacy (mkStoreHeader Legacy (host_val host kc)) (r :: rs) pads /\
    Forall2 pad_fits (r :: rs) pads /\
    stream s' = rest /\ err s' = err s.
Proof.
  intros Hbuf Lkc L17 Hb Hr Hrs Hn Hall.
  apply Forall_cons_iff in Hall. destruct Hall as [[Hfit Hdata] Hall'].
  rewrite (version_0_print_first_key host s kc h17 tail0 r bs2 Hbuf Lkc L17 Hb Hr Hfit).
  cbv zeta. unfold has_data in Hdata.
  replace (pub_data_size r + blob_size r =? 0) with false
    by (symmetry; apply Z.eqb_neq; lia).
  set (b3 := store (buf s) 0 (firstn 38 (h17 ++ stream s))).
  set (b' := store b3 0 (pub_data r ++ blob r)).
  set (pad := (load b' (pub_data_size r) (pad_len (pub_data_size r)),
               load b' (pub_data_size r + blob_size r) (pad_len (blob_size r)))).
  assert (Lb3 : length b3 = 1024%nat).
  { unfold b3. destruct (spec_legacy_record_Some _ _ _ _ Hr)
      as (psz & bsz & cf & Hs & Lu & Lpu & Lpsz & Lbsz & Lcf & _).
    rewrite length_store; [exact Hb|lia|]. rewrite length_firstn. lia. }
  assert (Lb' : length b' = 1024%nat).
  { unfold b'. destruct Hfit as [F1 F2]. unfold sizeof_buf in *.
    pose proof (round_up_4_bounds (blob_size r) ltac:(unfold blob_size; lia)).
    rewrite length_store; [exact Lb3|lia|].
    rewrite length_app. unfold pub_data_size, blob_size in *. lia. }
  pose proof (host_val_bound host kc) as Hmax. rewrite Lkc in Hmax.
  change (256 ^ Z.of_nat 4) with 4294967296 in Hmax.
  pose proof (host_val_nonneg host kc) as Hmin.
  assert (Hloop : exists s' pads,
            version_0_for host (Z.to_nat (host_val host kc)) 1 (host_val host kc)
              (mkState b' bs2 (out s ++
                 [Printf "PS version:        0\n" [];
                  Printf "PS number of keys: %u\n" [Int (host_val host kc)]] ++
                 dump_key 0 r pad) (err s)) = Ret 0 s' /\
            out s' = (out s ++
                 [Printf "PS version:        0\n" [];
                  Printf "PS number of keys: %u\n" [Int (host_val host kc)]] ++
                 dump_key 0 r pad) ++ dump_keys 1 rs pads /\
            Forall2 pad_fits rs pads /\
            stream s' = rest /\ err s' = err s /\ length (buf s') = 1024%nat).
  { destruct (Z.eq_dec (host_val host kc) 0) as [H0|H1].
    - assert (Hn0 : n = 0%nat) by lia. rewrite Hn0 in Hrs.
      cbn [spec_records] in Hrs. injection Hrs as <- <-.
      eexists. exists []. rewrite version_0_for_exit by lia.
      cbn [dump_keys out stream err buf]. rewrite app_nil_r. repeat split; auto.
    - match goal with |- exists s' pads, version_0_for _ _ _ _ ?st = _ /\ _ =>
        apply (version_0_for_records host n rs _ 1 _ st rest)
      end; cbn [buf stream]; auto; lia. }
  destruct Hloop as (s' & pads & Hrun & Hout & Hpads & Hst & Herr & _).
  exists s', (pad :: pads). repeat split; auto.
  - rewrite Hout. unfold dump_legacy. cbn [key_count dump_keys].
    change (int_of_u32 0) with 0. change (0 + 1) with 1.
    now rewrite <- !app_assoc.
  - constructor; [|exact Hpads]. now apply pad_from_buf_fits.
Qed.

Lemma inspect_legacy host SRK s kc bs1 r rs rest n :
  length (buf s) = 1024%nat ->
  take 4 (stream s) = Some (kc, bs1) ->
  spec_records (spec_legacy_record host) (S n) bs1 = Some (r :: rs, rest) ->
  n = Z.to_nat (host_val host kc - 1) ->
  looks_versioned host SRK (stream s) = false ->
  Forall (fun r => fits_buf r /\ has_data r) (r :: rs) ->
  exists s' pads,
    inspect host SRK s = Ret 0 s' /\
    out s' = out s ++ dump_legacy (mkStoreHeader Legacy (host_val host kc)) (r :: rs) pads /\
    Forall2 pad_fits (r :: rs) pads /\
    stream s' = rest /\ err s' = err s.
Proof.
  intros Hb Ht Hrs Hn Hv Hall.
  destruct (legacy_store_start host _ kc r rs bs1 rest n Ht Hrs)
    as (bs2 & Hs & L21 & Lkc & L17 & Hr & Hrs').
  rewrite (inspect_probe host SRK s _ _ Hs L21 Hb).
  rewrite Hs, looks_versioned_prefix in Hv by exact L21. rewrite Hv.
  match goal with |- exists s' pads, version_0_print _ ?st = _ /\ _ =>
    apply (legacy_first_key_then_rest host st kc (firstn 17 bs1)
             (skipn 21 (buf s)) r rs bs2 rest n)
  end; cbn [buf stream out err]; auto.
  - rewrite store_0, L21, <- app_assoc. reflexivity.
  - rewrite length_store; [exact Hb|lia|lia].
  - now rewrite firstn_skipn.
Qed.

(** X14: the fallback on the stores it handles.  Take a Legacy store that
    the field-by-field parse reads as a header with [key_count >= 1] and its
    records, each with at least one byte of data that fits the 1024-byte
    buffer, and that the probe does not take for a Versioned store.  Then
    [inspect], going through the probe, the
    copy of the 17 bytes already read to the front of the buffer and the
    reads that follow, returns 0 having printed exactly the header and the
    field values of the direct parse, record by record and in order (after
    [pub_data] and [blob] come the bytes that complete the last group of
    four).  Every byte of the store is consumed once: what is left of the
    stream is what the direct parse leaves. *)
Theorem legacy_fallback_matches_direct_parse host SRK s hdr rs rest :
  length (buf s) = 1024%nat ->
  spec_decode_legacy host (stream s) = Some ((hdr, rs), rest) ->
  looks_versioned host SRK (stream s) = false ->
  1 <= key_count hdr ->
  Forall (fun r => fits_buf r /\ has_data r) rs ->
  exists s' pads,
    inspect host SRK s = Ret 0 s' /\
    out s' = out s ++ dump_legacy hdr rs pads /\
    Forall2 pad_fits rs pads /\
    stream s' = rest /\ err s' = err s.
Proof.
  intros Hb Hd Hv Hk Hall. unfold spec_decode_legacy in Hd.
  destruct (take 4 (stream s)) as [[kc bs1]|] eqn:Ht; [|discriminate].
  destruct (spec_records _ _ bs1) as [[rs' rest']|] eqn:Hrs; [|discriminate].
  injection Hd as <- <- <-. cbn [key_count] in Hk.
  destruct (Z.to_nat (host_val host kc)) as [|n] eqn:En; [lia|].
  destruct rs' as [|r rs'].
  { cbn [spec_records] in Hrs.
    destruct (spec_legacy_record host bs1) as [[? ?]|]; [|discriminate].
    destruct (spec_records _ n l) as [[? ?]|]; discriminate. }
  apply (inspect_legacy host SRK s kc bs1 r rs' rest' n); auto. lia.
Qed.

Lemma legacy_fallback_matches_direct_parse_witness :
  exists s' pads,
    inspect LittleEndian TSS_UUID_SRK (opened example_legacy_store) = Ret 0 s' /\
    out s' = dump_legacy (mkStoreHeader Legacy 2)
               [mkKeyRecord uuid_A TSS_UUID_SRK [Byte.xaa; Byte.xbb] [Byte.xcc] [] 0;
                mkKeyRecord uuid_B uuid_A [] [Byte.xdd; Byte.xee; Byte.xff] [] 0]
               pads /\
    Forall2 pad_fits
      [mkKeyRecord uuid_A TSS_UUID_SRK [Byte.xaa; Byte.xbb] [Byte.xcc] [] 0;
       mkKeyRecord uuid_B uuid_A [] [Byte.xdd; Byte.xee; Byte.xff] [] 0] pads /\
    stream s' = [] /\ err s' = [].
Proof.
  apply (legacy_fallback_matches_direct_parse LittleEndian TSS_UUID_SRK
           (opened example_legacy_store)).
  - reflexivity.
  - reflexivity.
  - reflexivity.
  - cbn [key_count]. lia.
  - repeat constructor; vm_compute; congruence.
Defined.

(** C2 (the input on which the code fails): a well-formed Legacy store of
    two records, the first without data, which the probe does not take for a
    Versioned store.  The direct parse reads both records.  The inspector
    prints the fixed-size fields of the first and then asks [fread] for one
    member of size 0; [fread] answers 0, which [printkey_0] takes for a short
    read: it reports a failed read, and the second record is never
    reached. *)
Lemma legacy_record_without_data_is_rejected :
  spec_decode_legacy LittleEndian legacy_store_empty_record
  = Some ((mkStoreHeader Legacy 2,
           [mkKeyRecord uuid_A TSS_UUID_SRK [] [] [] 0;
            mkKeyRecord uuid_B uuid_A [] [Byte.xdd; Byte.xee; Byte.xff] [] 0]), []) /\
  looks_versioned LittleEndian TSS_UUID_SRK legacy_store_empty_record = false /\
  exists s',
    inspect LittleEndian TSS_UUID_SRK (opened legacy_store_empty_record)
    = Ret (-1) s' /\
    out s' = [Printf "PS version:        0\n" [];
              Printf "PS number of keys: %u\n" [Int 2]] ++
             dump_key_fixed 0 (mkKeyRecord uuid_A TSS_UUID_SRK [] [] [] 0) /\
    err s' = [Printf "fread: %s: %d members read\n" [StrError; Int 0];
              Printf "printkey_0 failed.\n" []].
Proof.
  split; [reflexivity|]. split; [reflexivity|].
  eexists. split; [|split]; vm_compute; reflexivity.
Qed.

Lemma length_store_prefix (b st : list BYTE) n :
  length b = 1024%nat -> (n <= 1024)%nat ->
  length (store b 0 (firstn n st)) = 1024%nat.
Proof.
  intros Hb Hn. rewrite length_store; [exact Hb|lia|]. rewrite length_firstn. lia.
Qed.

Lemma length_store_data (b : list BYTE) r :
  length b = 1024%nat -> fits_buf r ->
  length (store b 0 (pub_data r ++ blob r)) = 1024%nat.
Proof.
  intros Hb [F1 F2]. unfold sizeof_buf in *.
  pose proof (round_up_4_bounds (blob_size r) ltac:(unfold blob_size; lia)).
  rewrite length_store; [exact Hb|lia|].
  rewrite length_app. unfold pub_data_size, blob_size in *. lia.
Qed.

(** X15: the layout of a Legacy record, for a record whose data can be dumped
    from the 1024-byte buffer.  The field-by-field parse finds the record in
    bytes laid out as uuid (16), parent_uuid (16), pub_data_size, blob_size
    and cache_flags (two bytes each, all three taken in the byte order of the
    host), then pub_data_size bytes of pub_data and blob_size bytes of blob.
    One turn of the loop of [version_0_print] on a stream that starts with
    these bytes consumes exactly them and prints the same field values, in
    that order; so does the treatment of the first record, whose first 17
    bytes the probe has already put in the buffer behind key_count.  (With no
    data at all the final read of zero bytes counts as failed.) *)
Theorem legacy_record_layout host r :
  fits_buf r ->
  (forall bs rest,
     spec_legacy_record host bs = Some (r, rest) ->
     exists psz bsz cf,
       bs = uuid r ++ parent_uuid r ++ psz ++ bsz ++ cf ++
            pub_data r ++ blob r ++ rest /\
       length (uuid r) = 16%nat /\ length (parent_uuid r) = 16%nat /\
       length psz = 2%nat /\ length bsz = 2%nat /\ length cf = 2%nat /\
       host_val host psz = Z.of_nat (length (pub_data r)) /\
       host_val host bsz = Z.of_nat (length (blob r)) /\
       host_val host cf = cache_flags r) /\
  (forall s fuel i u32 rest,
     length (buf s) = 1024%nat -> i < u32 ->
     spec_legacy_record host (stream s) = Some (r, rest) ->
     exists b' pad,
       pad_fits r pad /\
       version_0_for host (S fuel) i u32 s =
         if pub_data_size r + blob_size r =? 0
         then Ret (-1)
                (mkState b' rest (out s ++ dump_key_fixed (int_of_u32 i) r)
                   (err s ++ [Printf "fread: %s: %d members read\n"
                                     [StrError; Int 0]]))
         else version_0_for host fuel (wrap32 (i + 1)) u32
                (mkState b' rest (out s ++ dump_key (int_of_u32 i) r pad) (err s))) /\
  (forall s kc h17 tail0 rest,
     buf s = kc ++ h17 ++ tail0 ->
     length kc = 4%nat -> length h17 = 17%nat -> length (buf s) = 1024%nat ->
     spec_legacy_record host (h17 ++ stream s) = Some (r, rest) ->
     exists b' pad,
       pad_fits r pad /\
       version_0_print host s =
         if pub_data_size r + blob_size r =? 0
         then Ret (-1)
                (mkState b' rest
                   (out s ++
                    [Printf "PS version:        0\n" [];
                     Printf "PS number of keys: %u\n" [Int (host_val host kc)]] ++
                    dump_key_fixed 0 r)
                   (err s ++ [Printf "fread: %s: %d members read\n"
                                     [StrError; Int 0];
                              Printf "printkey_0 failed.\n" []]))
         else version_0_for host (Z.to_nat (host_val host kc)) 1 (host_val host kc)
                (mkState b' rest
                   (out s ++
                    [Printf "PS version:        0\n" [];
                     Printf "PS number of keys: %u\n" [Int (host_val host kc)]] ++
                    dump_key 0 r pad)
                   (err s))).
Proof.
  intros Hfit. split; [|split].
  - intros bs rest Hr.
    destruct (spec_legacy_record_Some _ _ _ _ Hr)
      as (psz & bsz & cf & Hs & Lu & Lpu & Lpsz & Lbsz & Lcf & Vpsz & Vbsz & Vcf & _).
    exists psz, bsz, cf. repeat split; auto.
  - intros s fuel i u32 rest Hb Hi Hr.
    pose proof (version_0_for_step host fuel i u32 s r rest Hb Hi Hr Hfit) as Hstep.
    cbv zeta in Hstep.
    set (b1 := store (buf s) 0 (firstn 38 (stream s))) in *.
    set (b' := store b1 0 (pub_data r ++ blob r)) in *.
    assert (Lb' : length b' = 1024%nat)
      by (apply length_store_data; [apply length_store_prefix; [exact Hb|lia]|exact Hfit]).
    exists b'. eexists. split; [apply (pad_from_buf_fits b' r Lb' Hfit)|].
    rewrite Hstep. destruct (pub_data_size r + blob_size r =? 0) eqn:E; [|reflexivity].
    apply Z.eqb_eq in E. unfold b'. destruct (no_data_nil r E) as [-> ->]. reflexivity.
  - intros s kc h17 tail0 rest Hbuf Lkc L17 Hb Hr.
    pose proof (version_0_print_first_key host s kc h17 tail0 r rest
                  Hbuf Lkc L17 Hb Hr Hfit) as Hfirst.
    cbv zeta in Hfirst.
    set (b3 := store (buf s) 0 (firstn 38 (h17 ++ stream s))) in *.
    set (b' := store b3 0 (pub_data r ++ blob r)) in *.
    assert (Lb' : length b' = 1024%nat)
      by (apply length_store_data; [apply length_store_prefix; [exact Hb|lia]|exact Hfit]).
    exists b'. eexists. split; [apply (pad_from_buf_fits b' r Lb' Hfit)|].
    rewrite Hfirst. destruct (pub_data_size r + blob_size r =? 0) eqn:E; [|reflexivity].
    apply Z.eqb_eq in E. unfold b'. destruct (no_data_nil r E) as [-> ->]. reflexivity.
Qed.

Lemma legacy_record_layout_witness :
  (exists psz bsz cf,
    legacy_record_B
    = uuid_B ++ uuid_A ++ psz ++ bsz ++ cf ++
      [] ++ [Byte.xdd; Byte.xee; Byte.xff] ++ [] /\
    length uuid_B = 16%nat /\ length uuid_A = 16%nat /\
    length psz = 2%nat /\ length bsz = 2%nat /\ length cf = 2%nat /\
    host_val LittleEndian psz = 0 /\
    host_val LittleEndian bsz = 3 /\
    host_val LittleEndian cf = 0) /\
  (exists b' pad,
    pad_fits (mkKeyRecord uuid_B uuid_A [] [Byte.xdd; Byte.xee; Byte.xff] [] 0) pad /\
    version_0_for LittleEndian 1 1 2 (opened legacy_record_B)
    = version_0_for LittleEndian 0 2 2
        (mkState b' []
           (dump_key 1 (mkKeyRecord uuid_B uuid_A []
                          [Byte.xdd; Byte.xee; Byte.xff] [] 0) pad)
           [])).
Proof.
  assert (Hfit : fits_buf (mkKeyRecord uuid_B uuid_A []
                             [Byte.xdd; Byte.xee; Byte.xff] [] 0))
    by (split; vm_compute; discriminate).
  split.
  - apply (proj1 (legacy_record_layout LittleEndian _ Hfit) legacy_record_B []).
    reflexivity.
  - apply (proj1 (proj2 (legacy_record_layout LittleEndian _ Hfit))
             (opened legacy_record_B) 0%nat 1 2 []).
    + reflexivity.
    + lia.
    + reflexivity.
Defined.

(** C6 (the input on which the code fails): a well-formed Legacy store of
    two records, the second with 1025 bytes of pub_data, which the probe
    does not take for a Versioned store.  The field-by-field parse reads
    both records.  The inspector reads the fixed-size fields of the second
    record and then asks [fread] for its 1025 bytes of data at [buf], an
    array of 1024 bytes: the read runs over the end of the array, and what
    the program does from there on is not defined. *)
Theorem legacy_record_larger_than_the_buffer :
  spec_decode_legacy LittleEndian legacy_store_large_record
  = Some ((mkStoreHeader Legacy 2,
           [mkKeyRecord uuid_A TSS_UUID_SRK [Byte.xaa; Byte.xbb] [Byte.xcc] [] 0;
            mkKeyRecord uuid_B uuid_A (repeat Byte.xaa 1025) [] [] 0]), []) /\
  looks_versioned LittleEndian TSS_UUID_SRK legacy_store_large_record = false /\
  inspect LittleEndian TSS_UUID_SRK (opened legacy_store_large_record) = Undefined.
Proof.
  split; [vm_compute; reflexivity|]. split; vm_compute; reflexivity.
Qed.

(** ** A Legacy store that declares no key *)





(** ** A store taken for Versioned *)

(** Whatever follows the first 21 bytes, a store that passes the test of the
    probe is answered with the two header lines and the result 0; nothing
    more is read. *)
Lemma inspect_versioned host SRK s :
  length (buf s) = 1024%nat -> (21 <= length (stream s))%nat ->
  looks_versioned host SRK (stream s) = true ->
  inspect host SRK s
  = Ret 0 (mkState (store (buf s) 0 (firstn 21 (stream s))) (skipn 21 (stream s))
             (out s ++ [Printf "PS version:        1\n" [];
                        Printf "PS number of keys: %u\n"
                               [Int (host_val host (load (stream s) 1 4))]])
             (err s)).
Proof.
  intros Hb Hl Hv.
  assert (L21 : length (firstn 21 (stream s)) = 21%nat) by (rewrite length_firstn; lia).
  rewrite <- (firstn_skipn 21 (stream s)) in Hv at 1.
  rewrite looks_versioned_prefix in Hv by exact L21.
  rewrite (inspect_probe host SRK s _ _ (eq_sym (firstn_skipn 21 (stream s))) L21 Hb), Hv.
  rewrite version_1_print_spec by (cbn [buf]; apply length_store_prefix; [exact Hb|lia]).
  unfold add_out. cbn [buf stream out err]. do 5 f_equal.
  rewrite store_0, L21, load_app_inside by lia.
  rewrite <- (firstn_skipn 21 (stream s)) at 2.
  now rewrite load_app_inside by lia.
Qed.

(** C3 (the input on which the code fails): the Versioned store of the
    examples is well formed; cut after 30 of its 50 bytes it no longer
    parses, yet [inspect] returns 0 and writes nothing to stderr. *)
Theorem truncated_versioned_store_is_accepted :
  well_formed_versioned LittleEndian example_versioned_store /\
  (30 < length example_versioned_store)%nat /\
  spec_decode_versioned LittleEndian (firstn 30 example_versioned_store) = None /\
  exists s',
    inspect LittleEndian TSS_UUID_SRK (opened (firstn 30 example_versioned_store))
    = Ret 0 s' /\ err s' = [].
Proof.
  split; [do 2 eexists; reflexivity|].
  split; [vm_compute; lia|]. split; [reflexivity|].
  eexists. split; vm_compute; reflexivity.
Qed.

(** C4 (the inputs on which the code fails): a Versioned header that
    declares two keys and is followed by no complete record is inspected
    without any error; and a Legacy store that declares no key and is
    followed by the bytes of record A has that record read and printed. *)
Theorem key_count_is_not_the_number_of_records_read :
  (exists s',
     inspect LittleEndian TSS_UUID_SRK (opened versioned_store_two_keys_declared)
     = Ret 0 s' /\
     out s' = [Printf "PS version:        1\n" [];
               Printf "PS number of keys: %u\n" [Int 2]] /\
     err s' = []) /\
  (exists s' pad,
     inspect LittleEndian TSS_UUID_SRK (opened legacy_store_no_keys_then_record)
     = Ret 0 s' /\
     out s' = [Printf "PS version:        0\n" [];
               Printf "PS number of keys: %u\n" [Int 0]] ++
              dump_key 0 (mkKeyRecord uuid_A TSS_UUID_SRK [Byte.xaa; Byte.xbb]
                                      [Byte.xcc] [] 0) pad /\
     stream s' = []).
Proof.
  split.
  - eexists. split; [|split]; vm_compute; reflexivity.
  - eexists. exists ([Byte.xcc; Byte.x00], [Byte.x00; Byte.x00; Byte.x00]).
    split; [|split]; vm_compute; reflexivity.
Qed.

(** C5 (the input on which the code fails): for the well-formed Versioned
    store of the examples, which holds one record, everything [inspect]
    prints is the two header lines; the bytes of the record are not even
    read. *)
Theorem versioned_dump_stops_after_the_header :
  well_formed_versioned LittleEndian example_versioned_store /\
  looks_versioned LittleEndian TSS_UUID_SRK example_versioned_store = true /\
  exists s',
    inspect LittleEndian TSS_UUID_SRK (opened example_versioned_store) = Ret 0 s' /\
    out s' = [Printf "PS version:        1\n" [];
              Printf "PS number of keys: %u\n" [Int 1]] /\
    stream s' = skipn 21 example_versioned_store.
Proof.
  split; [do 2 eexists; reflexivity|]. split; [reflexivity|].
  eexists. split; [|split]; vm_compute; reflexivity.
Qed.

(** ** main *)

(** The exit status of the utility: 255 when it is not given exactly one
    argument or cannot open the file, and otherwise the low eight bits of
    what [inspect] returns on the content of the file. *)
Lemma run_exit_status host SRK fs argv :
  (length argv <> 2%nat -> run host SRK fs argv = Some 255) /\
  (length argv = 2%nat -> fs (nth 1 argv "") = None ->
   run host SRK fs argv = Some 255) /\
  (forall content,
     length argv = 2%nat -> fs (nth 1 argv "") = Some content ->
     run host SRK fs argv
     = match inspect host SRK
               (add_out (opened content)
                        [Printf "PS filename: %s\n" [Str (nth 1 argv "")]]) with
       | Ret rc _ => Some (exit_status rc)
       | _ => None
       end).
Proof.
  unfold run, main. split; [|split].
  - intros H.
    replace (Z.of_nat (length argv) =? 2) with false
      by (symmetry; apply Z.eqb_neq; lia).
    reflexivity.
  - intros H Hf. rewrite H, Hf. reflexivity.
  - intros content H Hf. rewrite H, Hf. cbn [Z.of_nat Pos.of_succ_nat Pos.succ Z.eqb Pos.eqb negb].
    unfold bind at 1. rewrite bind_printf. unfold bind, ret.
    destruct (inspect host SRK _); reflexivity.
Qed.

(** C7 (the input on which the code fails): run on a file that holds the
    first 30 bytes of the Versioned store of the examples, the utility exits
    with status 0; on the well-formed empty Legacy store and on a file that
    cannot be opened it exits with status 255. *)
Theorem exit_status_of_a_truncated_versioned_store :
  run LittleEndian TSS_UUID_SRK
      (one_file "system.data" (firstn 30 example_versioned_store))
      ["ps_inspect"; "system.data"] = Some 0 /\
  run LittleEndian TSS_UUID_SRK
      (one_file "system.data" legacy_store_no_keys)
      ["ps_inspect"; "system.data"] = Some 255 /\
  run LittleEndian TSS_UUID_SRK
      (one_file "system.data" example_legacy_store)
      ["ps_inspect"; "missing"] = Some 255.
Proof. split; [|split]; vm_compute; reflexivity. Qed.

(** ** Truncated Legacy stores *)

Lemma firstn_app_more {A} (a b : list A) t :
  (length a <= t)%nat -> firstn t (a ++ b) = a ++ firstn (t - length a) b.
Proof.
  intros H. rewrite firstn_app. now rewrite firstn_all2 by exact H.
Qed.

Lemma length_firstn_lt {A} (l : list A) t :
  (t < length l)%nat -> length (firstn t l) = t.
Proof. intros H. rewrite length_firstn. lia. Qed.

(** The parse of a record does not depend on what follows the record. *)
Lemma spec_legacy_record_app host r psz bsz cf x :
  length (uuid r) = 16%nat -> length (parent_uuid r) = 16%nat ->
  length psz = 2%nat -> length bsz = 2%nat -> length cf = 2%nat ->
  host_val host psz = pub_data_size r ->
  host_val host bsz = blob_size r ->
  host_val host cf = cache_flags r ->
  vendor_data r = [] ->
  spec_legacy_record host
    (uuid r ++ parent_uuid r ++ psz ++ bsz ++ cf ++ pub_data r ++ blob r ++ x)
  = Some (r, x).
Proof.
  intros Lu Lpu Lpsz Lbsz Lcf Vpsz Vbsz Vcf Hv. unfold spec_legacy_record.
  rewrite take_app by lia. rewrite take_app by lia. rewrite take_app by lia.
  rewrite take_app by lia. rewrite take_app by lia.
  rewrite Vpsz, Vbsz, Vcf.
  rewrite take_app by reflexivity. rewrite take_app by reflexivity.
  destruct r. cbn in *. now subst.
Qed.

(** A turn of the loop on a stream that ends inside the record. *)
Lemma version_0_for_cut host fuel i u32 s r full rest t :
  length (buf s) = 1024%nat -> i < u32 ->
  spec_legacy_record host full = Some (r, rest) ->
  fits_buf r ->
  stream s = firstn t full ->
  (t < length full - length rest)%nat ->
  exists s', version_0_for host (S fuel) i u32 s = Ret (-1) s'.
Proof.
  intros Hb Hi Hr [F1 F2] Hs Ht. unfold sizeof_buf in *.
  destruct (spec_legacy_record_Some _ _ _ _ Hr)
    as (psz & bsz & cf & Hfull & Lu & Lpu & Lpsz & Lbsz & Lcf & Vpsz & Vbsz & Vcf & _).
  set (hdr := uuid r ++ parent_uuid r ++ psz ++ bsz ++ cf).
  assert (Lhdr : length hdr = 38%nat) by (unfold hdr; rewrite !length_app; lia).
  assert (Hfull' : full = hdr ++ pub_data r ++ blob r ++ rest)
    by (rewrite Hfull; unfold hdr; rewrite <- !app_assoc; reflexivity).
  assert (Lfull : length full
                  = (38 + length (pub_data r) + length (blob r) + length rest)%nat)
    by (rewrite Hfull', !length_app; lia).
  pose proof (round_up_4_bounds (blob_size r) ltac:(unfold blob_size; lia)) as Rb.
  cbn [version_0_for].
  replace (i <? u32) with true by (symmetry; apply Z.ltb_lt; lia).
  unfold sizeof_TSS_UUID, sizeof_UINT16. change (2 * 16 + 3 * 2) with 38.
  destruct (Nat.lt_ge_cases t 38) as [Hcut|Hcut].
  - (* the header is cut *)
    assert (Ls : length (stream s) = t) by (rewrite Hs; apply length_firstn_lt; lia).
    rewrite (bind_Ret _ _ _ _ _ (fread_short 0 38 s ltac:(lia) ltac:(lia) ltac:(lia))).
    cbn [Z.eqb negb]. rewrite bind_PRINTERR. eexists. reflexivity.
  - (* the data are cut *)
    assert (Hs' : stream s = hdr ++ firstn (t - 38) (pub_data r ++ blob r ++ rest))
      by (rewrite Hs, Hfull', firstn_app_more, Lhdr by lia; reflexivity).
    rewrite (bind_Ret _ _ _ _ _
               (fread_full 0 38 s hdr _ ltac:(lia) ltac:(lia) Hs' ltac:(lia) ltac:(lia))).
    cbn [Z.eqb Pos.eqb negb].
    set (s1 := mkState (store (buf s) 0 hdr)
                       (firstn (t - 38) (pub_data r ++ blob r ++ rest)) (out s) (err s)).
    assert (Hk0 : printkey_0 host (int_of_u32 i) s1
                  = printkey_0_data (int_of_u32 i) (pub_data_size r) (blob_size r)
                      (add_out s1 (dump_key_fixed (int_of_u32 i) r))).
    { apply (printkey_0_header host (int_of_u32 i) s1 r psz bsz cf (skipn 38 (buf s)));
        cbn [buf s1]; auto.
      - rewrite store_0, Lhdr. unfold hdr. now rewrite <- !app_assoc.
      - rewrite length_store; lia. }
    destruct (printkey_0_data_short (int_of_u32 i)
                (add_out s1 (dump_key_fixed (int_of_u32 i) r))
                (pub_data_size r) (blob_size r))
      as (b' & st' & Hk).
    + cbn [buf add_out s1]. rewrite length_store; lia.
    + unfold pub_data_size, blob_size in *. lia.
    + right. cbn [stream add_out s1]. rewrite length_firstn, !length_app.
      unfold pub_data_size, blob_size. lia.
    + eexists. unfold bind at 1. rewrite Hk0, Hk. reflexivity.
Qed.

(** The inverse reading of [spec_legacy_record_Some]: a stream that holds
    the bytes of the record [r] and then [x] parses as [r] followed by [x]. *)
Lemma spec_legacy_record_extend host full r rest x :
  spec_legacy_record host full = Some (r, rest) ->
  exists rbytes,
    full = rbytes ++ rest /\
    spec_legacy_record host (rbytes ++ x) = Some (r, x).
Proof.
  intros Hr.
  destruct (spec_legacy_record_Some _ _ _ _ Hr)
    as (psz & bsz & cf & Hfull & Lu & Lpu & Lpsz & Lbsz & Lcf & Vpsz & Vbsz & Vcf & Hv).
  exists (uuid r ++ parent_uuid r ++ psz ++ bsz ++ cf ++ pub_data r ++ blob r).
  rewrite <- !app_assoc. split; [exact Hfull|].
  now apply spec_legacy_record_app.
Qed.

Lemma version_0_for_truncated host : forall n rs full fuel i u32 s t,
  spec_records (spec_legacy_record host) n full = Some (rs, []) ->
  Forall fits_buf rs ->
  (t < length full)%nat -> stream s = firstn t full ->
  length (buf s) = 1024%nat ->
  0 <= i -> i + Z.of_nat n = u32 -> u32 < 4294967296 -> (n <= fuel)%nat ->
  exists s', version_0_for host fuel i u32 s = Ret (-1) s'.
Proof.
  induction n as [|n IH]; intros rs full fuel i u32 s t Hrs Hall Ht Hs Hb Hi Hn Hmax Hf.
  - cbn [spec_records] in Hrs. injection Hrs as <- ->. cbn [length] in Ht. lia.
  - cbn [spec_records] in Hrs.
    destruct (spec_legacy_record host full) as [[r full1]|] eqn:Hr; [|discriminate].
    destruct (spec_records _ n full1) as [[rs' rest']|] eqn:Hrs'; [|discriminate].
    injection Hrs as <- ->.
    apply Forall_cons_iff in Hall. destruct Hall as [Hfit Hall].
    destruct fuel as [|fuel]; [lia|].
    destruct (Nat.lt_ge_cases t (length full - length full1)) as [Hcut|Hcut].
    { apply (version_0_for_cut host fuel i u32 s r full full1 t); auto. lia. }
    destruct (spec_legacy_record_extend host full r full1
                (firstn (t - (length full - length full1)) full1) Hr)
      as (rbytes & Hfull & Hr').
    assert (Lfull : length full = (length rbytes + length full1)%nat)
      by (rewrite Hfull at 1; apply length_app).
    assert (Lr : length rbytes = (length full - length full1)%nat) by lia.
    assert (Hs' : stream s = rbytes ++ firstn (t - (length full - length full1)) full1).
    { rewrite Hs. pattern full at 1. rewrite Hfull.
      rewrite firstn_app_more by lia. now rewrite Lr. }
    rewrite <- Hs' in Hr'.
    rewrite (version_0_for_step host fuel i u32 s r _ Hb ltac:(lia) Hr' Hfit).
    cbv zeta. destruct (_ =? 0); [eexists; reflexivity|].
    rewrite wrap32_small by lia.
    apply (IH rs' full1 fuel (i + 1) u32 _ (t - (length full - length full1))%nat);
      cbn [buf stream]; auto; try lia.
    apply length_store_data; [apply length_store_prefix; [exact Hb|lia]|exact Hfit].
Qed.

(** [version_0_print] on a stream that ends inside the first record. *)
Lemma version_0_print_cut host s kc h17 tail0 r full rest t1 :
  buf s = kc ++ h17 ++ tail0 ->
  length kc = 4%nat -> length h17 = 17%nat -> length (buf s) = 1024%nat ->
  spec_legacy_record host full = Some (r, rest) ->
  fits_buf r ->
  h17 = firstn 17 full ->
  stream s = firstn t1 (skipn 17 full) ->
  (17 + t1 < length full - length rest)%nat ->
  exists s', version_0_print host s = Ret (-1) s'.
Proof.
  intros Hbuf Lkc L17 Hb Hr [F1 F2] H17 Hs Ht. unfold sizeof_buf in *.
  destruct (spec_legacy_record_Some _ _ _ _ Hr)
    as (psz & bsz & cf & Hfull & Lu & Lpu & Lpsz & Lbsz & Lcf & Vpsz & Vbsz & Vcf & _).
  set (hdr := uuid r ++ parent_uuid r ++ psz ++ bsz ++ cf).
  assert (Lhdr : length hdr = 38%nat) by (unfold hdr; rewrite !length_app; lia).
  assert (Hfull' : full = hdr ++ pub_data r ++ blob r ++ rest)
    by (rewrite Hfull; unfold hdr; rewrite <- !app_assoc; reflexivity).
  assert (Lfull : length full
                  = (38 + length (pub_data r) + length (blob r) + length rest)%nat)
    by (rewrite Hfull', !length_app; lia).
  pose proof (round_up_4_bounds (blob_size r) ltac:(unfold blob_size; lia)) as Rb.
  set (h21 := skipn 17 hdr).
  assert (L21 : length h21 = 21%nat) by (unfold h21; rewrite length_skipn; lia).
  assert (H17' : h17 = firstn 17 hdr).
  { rewrite H17, Hfull', firstn_app. rewrite Lhdr. cbn [Nat.sub firstn].
    now rewrite app_nil_r. }
  assert (Hhh : h17 ++ h21 = hdr) by (rewrite H17'; apply firstn_skipn).
  assert (Hskip : skipn 17 full = h21 ++ pub_data r ++ blob r ++ rest).
  { rewrite Hfull', skipn_app, Lhdr. reflexivity. }
  unfold version_0_print, sizeof_UINT32, sizeof_TSS_UUID, sizeof_UINT16.
  change (16 + 3 * 2 - 1) with 21. change (16 + 1) with 17.
  rewrite bind_rd_int by lia.
  rewrite !bind_printf, add_out_add_out.
  set (s0 := add_out s _).
  assert (Hcpy : memcpy 0 4 17 s0
                 = Ret tt (mkState (h17 ++ skipn 17 (buf s)) (stream s)
                                   (out s0) (err s))).
  { rewrite memcpy_ok by (cbn [buf add_out s0]; lia).
    cbn [buf stream out err add_out s0].
    replace (load (buf s) 4 17) with h17.
    - rewrite store_0, L17. reflexivity.
    - rewrite Hbuf, load_app_r by lia.
      replace (4 - Z.of_nat (length kc)) with 0 by lia.
      symmetry. apply load_prefix. lia. }
  rewrite (bind_Ret _ _ _ _ _ Hcpy).
  set (s2 := mkState (h17 ++ skipn 17 (buf s)) (stream s) (out s0) (err s)).
  assert (Lb2 : length (buf s2) = 1024%nat)
    by (cbn [buf s2]; rewrite length_app, length_skipn; lia).
  destruct (Nat.lt_ge_cases t1 21) as [Hcut|Hcut].
  - assert (Ls : length (stream s2) = t1).
    { cbn [stream s2]. rewrite Hs. apply length_firstn_lt.
      rewrite length_skipn. lia. }
    rewrite (bind_Ret _ _ _ _ _ (fread_short 17 21 s2 ltac:(lia) ltac:(lia) ltac:(lia))).
    cbn [Z.eqb negb]. rewrite bind_PRINTERR. eexists. reflexivity.
  - assert (Hs' : stream s2 = h21 ++ firstn (t1 - 21) (pub_data r ++ blob r ++ rest)).
    { cbn [stream s2]. rewrite Hs, Hskip, firstn_app_more, L21 by lia. reflexivity. }
    rewrite (bind_Ret _ _ _ _ _
               (fread_full 17 21 s2 h21 _ ltac:(lia) ltac:(lia) Hs' ltac:(lia) ltac:(lia))).
    cbn [Z.eqb Pos.eqb negb].
    set (s3 := mkState (store (buf s2) 17 h21)
                       (firstn (t1 - 21) (pub_data r ++ blob r ++ rest))
                       (out s2) (err s2)).
    assert (Hb3 : buf s3 = hdr ++ skipn 38 (buf s2)).
    { cbn [buf s3 s2]. unfold store. cbn [Z.to_nat].
      change (Pos.to_nat 17) with 17%nat.
      rewrite firstn_app_exact by exact L17.
      rewrite L21, <- Hhh, <- !app_assoc. reflexivity. }
    assert (Lb3 : length (buf s3) = 1024%nat)
      by (rewrite Hb3, length_app, length_skipn; lia).
    assert (Hk0 : printkey_0 host 0 s3
                  = printkey_0_data 0 (pub_data_size r) (blob_size r)
                      (add_out s3 (dump_key_fixed 0 r))).
    { apply (printkey_0_header host 0 s3 r psz bsz cf (skipn 38 (buf s2))); auto.
      rewrite Hb3. unfold hdr. now rewrite <- !app_assoc. }
    destruct (printkey_0_data_short 0 (add_out s3 (dump_key_fixed 0 r))
                (pub_data_size r) (blob_size r))
      as (b' & st' & Hk).
    + exact Lb3.
    + unfold pub_data_size, blob_size in *. lia.
    + right. cbn [stream add_out s3]. rewrite length_firstn, !length_app.
      unfold pub_data_size, blob_size. lia.
    + eexists. unfold bind at 1. rewrite Hk0, Hk. cbn [Z.eqb negb].
      rewrite bind_PRINTERR. reflexivity.
Qed.

(** X6: short reads on the Legacy path.  A well-formed Legacy store whose
    records fit the buffer, cut anywhere before its end and not taken for a
    Versioned store, makes [inspect] return -1: a key count that promises
    more keys than the file holds, a header or data cut short are all
    errors. *)
Theorem legacy_short_read_is_an_error host SRK s st t hdr rs :
  length (buf s) = 1024%nat ->
  spec_decode_legacy host st = Some ((hdr, rs), []) ->
  Forall fits_buf rs ->
  (t < length st)%nat ->
  stream s = firstn t st ->
  looks_versioned host SRK (stream s) = false ->
  exists s', inspect host SRK s = Ret (-1) s'.
Proof.
  intros Hb Hd Hall Ht Hs Hv. unfold spec_decode_legacy in Hd.
  destruct (take 4 st) as [[kc full]|] eqn:Hk; [|discriminate].
  destruct (spec_records _ _ full) as [[rs' rest']|] eqn:Hrs; [|discriminate].
  injection Hd as _ -> ->.
  apply take_Some in Hk; [|lia]. destruct Hk as [Hst Lkc0].
  assert (Lkc : length kc = 4%nat) by lia.
  assert (Lst : length st = (4 + length full)%nat) by (rewrite Hst, length_app; lia).
  assert (Ls : length (stream s) = t) by (rewrite Hs; now apply length_firstn_lt).
  destruct (Nat.lt_ge_cases t 21) as [Hshort|Hprobe].
  { eexists. apply inspect_probe_short; [lia|exact Hb]. }
  destruct (Z.to_nat (host_val host kc)) as [|n] eqn:En.
  { cbn [spec_records] in Hrs. injection Hrs as _ ->. cbn [length] in Lst. lia. }
  cbn [spec_records] in Hrs.
  destruct (spec_legacy_record host full) as [[r full1]|] eqn:Hr; [|discriminate].
  destruct (spec_records _ n full1) as [[rs1 rest1]|] eqn:Hrs1; [|discriminate].
  injection Hrs as <- ->.
  apply Forall_cons_iff in Hall. destruct Hall as [Hfit Hall].
  destruct (spec_legacy_record_Some _ _ _ _ Hr)
    as (psz & bsz & cf & Hfull & Lu & Lpu & Lpsz & Lbsz & Lcf & _).
  assert (L38 : (38 <= length full)%nat) by (rewrite Hfull, !length_app; lia).
  set (h17 := firstn 17 full).
  assert (L17 : length h17 = 17%nat) by (unfold h17; rewrite length_firstn; lia).
  assert (Hsplit : stream s = (kc ++ h17) ++ firstn (t - 21) (skipn 17 full)).
  { rewrite Hs, Hst, firstn_app_more by lia. rewrite <- app_assoc. f_equal.
    replace (t - length kc)%nat with (17 + (t - 21))%nat by lia.
    apply firstn_plus. }
  assert (L21 : length (kc ++ h17) = 21%nat) by (rewrite length_app; lia).
  rewrite (inspect_probe host SRK s _ _ Hsplit L21 Hb).
  rewrite Hsplit, looks_versioned_prefix in Hv by exact L21. rewrite Hv.
  set (s1 := mkState (store (buf s) 0 (kc ++ h17))
                     (firstn (t - 21) (skipn 17 full)) (out s) (err s)).
  assert (Hb1 : buf s1 = kc ++ h17 ++ skipn 21 (buf s))
    by (cbn [buf s1]; now rewrite store_0, L21, <- app_assoc).
  assert (Lb1 : length (buf s1) = 1024%nat)
    by (rewrite Hb1, !length_app, length_skipn; lia).
  destruct (spec_legacy_record_extend host full r full1
              (firstn (t - 4 - (length full - length full1)) full1) Hr)
    as (rbytes & Hfull1 & Hr').
  assert (Lfull : length full = (length rbytes + length full1)%nat)
    by (rewrite Hfull1 at 1; apply length_app).
  destruct (Nat.lt_ge_cases (t - 4) (length full - length full1)) as [Hcut|Hcut].
  { apply (version_0_print_cut host s1 kc h17 (skipn 21 (buf s)) r full full1 (t - 21));
      auto; lia. }
  assert (Hjoin : h17 ++ stream s1
                  = rbytes ++ firstn (t - 4 - (length full - length full1)) full1).
  { cbn [stream s1]. unfold h17. rewrite <- firstn_plus.
    replace (17 + (t - 21))%nat with (t - 4)%nat by lia.
    pattern full at 1. rewrite Hfull1. rewrite firstn_app_more by lia.
    do 2 f_equal. lia. }
  rewrite <- Hjoin in Hr'.
  rewrite (version_0_print_first_key host s1 kc h17 (skipn 21 (buf s)) r _
             Hb1 Lkc L17 Lb1 Hr' Hfit).
  cbv zeta. destruct (_ =? 0); [eexists; reflexivity|].
  pose proof (host_val_bound host kc) as Hmax. rewrite Lkc in Hmax.
  change (256 ^ Z.of_nat 4) with 4294967296 in Hmax.
  apply (version_0_for_truncated host n rs1 full1 _ 1 (host_val host kc) _
           (t - 4 - (length full - length full1))%nat);
    cbn [buf stream]; auto; try lia.
  apply length_store_data; [apply length_store_prefix; [exact Lb1|lia]|exact Hfit].
Qed.

Lemma legacy_short_read_is_an_error_witness :
  exists s',
    inspect LittleEndian TSS_UUID_SRK (opened (firstn 50 example_legacy_store))
    = Ret (-1) s'.
Proof.
  apply (legacy_short_read_is_an_error LittleEndian TSS_UUID_SRK
           (opened (firstn 50 example_legacy_store)) example_legacy_store 50
           (mkStoreHeader Legacy 2)
           [mkKeyRecord uuid_A TSS_UUID_SRK [Byte.xaa; Byte.xbb] [Byte.xcc] [] 0;
            mkKeyRecord uuid_B uuid_A [] [Byte.xdd; Byte.xee; Byte.xff] [] 0]).
  - reflexivity.
  - vm_compute. reflexivity.
  - repeat constructor; vm_compute; discriminate.
  - vm_compute. lia.
  - reflexivity.
  - vm_compute. reflexivity.
Defined.

(** ** The lines of a dump *)

Lemma four_to_a_line_next m : four_to_a_line (4 + m) = 4%nat :: four_to_a_line m.
Proof.
  unfold four_to_a_line.
  replace (4 + m)%nat with (m + 1 * 4)%nat by lia.
  rewrite Nat.div_add, Nat.Div0.mod_add by lia.
  rewrite Nat.add_comm. reflexivity.
Qed.

Lemma four_to_a_line_short m :
  (0 < m <= 4)%nat -> four_to_a_line m = [m].
Proof.
  intros H. destruct m as [|[|[|[|[|m]]]]]; try lia; reflexivity.
Qed.

Lemma line_lengths_hex_dump_aux : forall n j l,
  (j <= 4)%nat ->
  line_lengths j (hex_dump_aux n j l) = (four_to_a_line (j + n), 0%nat).
Proof.
  induction n as [|n IH]; intros j l Hj.
  - cbn [hex_dump_aux]. rewrite Nat.add_0_r. destruct j as [|j].
    + reflexivity.
    + rewrite four_to_a_line_short by lia. reflexivity.
  - cbn [hex_dump_aux]. destruct (Nat.eqb_spec j 4) as [->|Hne].
    + cbn [line_lengths]. change (is_newline newline) with true. cbv iota.
      change (is_newline (hex_group (firstn 4 l))) with false. cbv iota.
      rewrite (IH 1%nat) by lia.
      replace (4 + S n)%nat with (4 + (1 + n))%nat by lia.
      now rewrite four_to_a_line_next.
    + cbn [line_lengths]. change (is_newline (hex_group (firstn 4 l))) with false.
      cbv iota. rewrite (IH (S j)) by lia. do 2 f_equal. lia.
Qed.

(** X1: a dump that stays inside the buffer is made of [ceil(len / 4)] groups
    set four to a line (16 bytes), every line ended by a line break, the
    last line shorter when the number of groups is not a multiple of four;
    for [len = 0] nothing at all is printed, not even a line break. *)
Theorem print_hex_lines s p len :
  length (buf s) = 1024%nat -> 0 <= p -> 0 <= len ->
  p + round_up_4 len <= 1024 ->
  exists evs,
    print_hex p len s = Ret tt (add_out s evs) /\
    line_lengths 0 evs = (four_to_a_line (Z.to_nat ((len + 3) / 4)), 0%nat) /\
    (len = 0 -> evs = []).
Proof.
  intros Hb Hp Hlen Hfit.
  exists (hex_dump (load (buf s) p (round_up_4 len))).
  split; [apply print_hex_ok; lia|].
  pose proof (round_up_4_bounds len Hlen) as Hr.
  assert (Hl : length (load (buf s) p (round_up_4 len))
               = (4 * Z.to_nat ((len + 3) / 4))%nat).
  { rewrite length_load by lia. rewrite (round_up_4_groups len Hlen). lia. }
  rewrite (hex_dump_of_groups _ _ Hl). split.
  - apply (line_lengths_hex_dump_aux _ 0%nat). lia.
  - intros ->. reflexivity.
Qed.

Lemma print_hex_lines_witness :
  exists evs,
    print_hex 0 21 initial_state = Ret tt (add_out initial_state evs) /\
    line_lengths 0 evs = ([4; 2]%nat, 0%nat) /\
    (21 = 0 -> evs = []).
Proof.
  apply (print_hex_lines initial_state 0 21); [reflexivity|lia|lia|].
  vm_compute. discriminate.
Defined.

(** ** printkey_0 on any buffer *)

(** Whatever the buffer holds, [printkey_0] dumps its first 38 bytes as the
    fixed-size fields of a key and goes on to the data with the two sizes it
    found at offsets 32 and 34. *)
Lemma printkey_0_raw host i s :
  length (buf s) = 1024%nat ->
  printkey_0 host i s
  = printkey_0_data i (load_int host (buf s) 32 2) (load_int host (buf s) 34 2)
      (add_out s (key_header_dump host i (buf s))).
Proof.
  intros Hlen.
  unfold printkey_0, sizeof_TSS_UUID, sizeof_UINT16.
  rewrite bind_printf.
  rewrite bind_print_hex by (cbn [buf add_out]; try lia; vm_compute; discriminate).
  rewrite add_out_add_out. rewrite bind_printf. rewrite add_out_add_out.
  rewrite bind_print_hex by (cbn [buf add_out]; try lia; vm_compute; discriminate).
  rewrite add_out_add_out.
  rewrite !bind_rd_int by (cbn [buf add_out]; lia).
  rewrite !bind_printf, !add_out_add_out.
  cbn [buf add_out].
  change (round_up_4 16) with 16.
  change (2 * 16 + 2 * 2) with 36. change (2 * 16 + 2) with 34.
  change (2 * 16) with 32.
  match goal with |- _ (add_out s ?evs) = _ =>
    replace evs with (key_header_dump host i (buf s))
      by (unfold key_header_dump, load_int; rewrite <- !app_assoc; reflexivity)
  end.
  reflexivity.
Qed.

Lemma length_load_le (b : list BYTE) p n : (length (load b p n) <= Z.to_nat n)%nat.
Proof. unfold load. rewrite length_firstn. lia. Qed.

Lemma load_int_u16 host b p : 0 <= load_int host b p 2 < 65536.
Proof.
  unfold load_int. split; [apply host_val_nonneg|].
  eapply Z.lt_le_trans; [apply host_val_bound|].
  change 65536 with (256 ^ 2).
  apply Z.pow_le_mono_r; [lia|]. pose proof (length_load_le b p 2). lia.
Qed.

Lemma round_up_4_le len m :
  0 <= len <= 4 * m -> round_up_4 len <= 4 * m.
Proof.
  intros H. unfold round_up_4.
  assert ((len + 3) / 4 <= m); [|lia].
  apply Z.lt_succ_r. apply Z.div_lt_upper_bound; lia.
Qed.

(** X2: a key whose two sizes are both zero makes [printkey_0] fail.  The
    fixed-size fields are dumped, then the read of zero bytes reports no
    member: the function returns -1 with the message that names 0 members,
    and neither the buffer nor the stream has changed. *)
Theorem printkey_0_without_data host i s :
  length (buf s) = 1024%nat ->
  load_int host (buf s) 32 2 = 0 -> load_int host (buf s) 34 2 = 0 ->
  printkey_0 host i s
  = Ret (-1) (add_err (add_out s (key_header_dump host i (buf s)))
                [Printf "fread: %s: %d members read\n" [StrError; Int 0]]).
Proof.
  intros Hb Hp Hbl. rewrite printkey_0_raw by exact Hb.
  rewrite Hp, Hbl. reflexivity.
Qed.

Lemma printkey_0_without_data_witness :
  printkey_0 LittleEndian 0 initial_state
  = Ret (-1) (add_err (add_out initial_state
                         (key_header_dump LittleEndian 0 (buf initial_state)))
                [Printf "fread: %s: %d members read\n" [StrError; Int 0]]).
Proof.
  apply (printkey_0_without_data LittleEndian 0 initial_state); reflexivity.
Defined.

(** X3: when the stream holds fewer bytes than the two sizes of the key
    add up to, [printkey_0] fails.  If what is left fits the buffer it is
    copied to its front, the stream is used up, and the function returns -1
    with the message that names 0 members, having printed the fixed-size
    fields only; if more than 1024 bytes are left, the read runs past the end
    of the buffer. *)
Theorem printkey_0_short_data host i s :
  length (buf s) = 1024%nat ->
  let n := load_int host (buf s) 32 2 + load_int host (buf s) 34 2 in
  Z.of_nat (length (stream s)) < n ->
  (Z.of_nat (length (stream s)) <= 1024 ->
   printkey_0 host i s
   = Ret (-1) (mkState (store (buf s) 0 (stream s)) []
                 (out s ++ key_header_dump host i (buf s))
                 (err s ++ [Printf "fread: %s: %d members read\n"
                                   [StrError; Int 0]]))) /\
  (1024 < Z.of_nat (length (stream s)) -> printkey_0 host i s = Undefined).
Proof.
  intros Hb n Hshort. rewrite printkey_0_raw by exact Hb.
  unfold printkey_0_data. fold n. split; intros Hl.
  - rewrite (bind_Ret _ _ _ _ _
               (fread_short 0 n (add_out s (key_header_dump host i (buf s)))
                  ltac:(lia) Hshort ltac:(cbn [buf stream add_out]; lia))).
    reflexivity.
  - unfold bind, fread. cbn [buf stream add_out].
    replace (n =? 0) with false by (symmetry; apply Z.eqb_neq; lia).
    replace (0 + Z.min n (Z.of_nat (length (stream s)))
             <=? Z.of_nat (length (buf s))) with false
      by (symmetry; apply Z.leb_gt; lia).
    reflexivity.
Qed.

Lemma printkey_0_short_data_witness :
  printkey_0 LittleEndian 0 (at_key (firstn 40 legacy_record_A))
  = Ret (-1) (mkState (store (buf (at_key (firstn 40 legacy_record_A))) 0
                             [Byte.xaa; Byte.xbb]) []
                (key_header_dump LittleEndian 0
                   (buf (at_key (firstn 40 legacy_record_A))))
                [Printf "fread: %s: %d members read\n" [StrError; Int 0]]).
Proof.
  apply (printkey_0_short_data LittleEndian 0 (at_key (firstn 40 legacy_record_A)));
    [reflexivity|vm_compute; reflexivity|vm_compute; discriminate].
Defined.

(** The whole of what [printkey_0] does when the data are there and their
    dump stays inside the buffer. *)
Lemma printkey_0_all_data host i s :
  length (buf s) = 1024%nat ->
  let psz := load_int host (buf s) 32 2 in
  let bsz := load_int host (buf s) 34 2 in
  let n := psz + bsz in
  let data := firstn (Z.to_nat n) (stream s) in
  let pub := firstn (Z.to_nat psz) data in
  let blb := skipn (Z.to_nat psz) data in
  let old := skipn (Z.to_nat n) (buf s) in
  0 < n <= Z.of_nat (length (stream s)) ->
  psz + round_up_4 bsz <= 1024 ->
  printkey_0 host i s
  = Ret 0 (mkState (data ++ old) (skipn (Z.to_nat n) (stream s))
             (out s ++ key_header_dump host i (buf s) ++
              [Printf "PS pub_data%d:\n" [Int i]] ++
              hex_dump (pub ++ firstn (Z.to_nat (pad_len psz)) (blb ++ old)) ++
              [Printf "PS blob%d:\n" [Int i]] ++
              hex_dump (blb ++ firstn (Z.to_nat (pad_len bsz)) old))
             (err s)).
Proof.
  intros buf_size psz bsz n data pub blb old Hn Hfit.
  pose proof (load_int_u16 host (buf s) 32) as Hp. fold psz in Hp.
  pose proof (load_int_u16 host (buf s) 34) as Hb. fold bsz in Hb.
  pose proof (round_up_4_bounds psz ltac:(lia)) as Rp.
  pose proof (round_up_4_bounds bsz ltac:(lia)) as Rb.
  assert (Ld : length data = Z.to_nat n)
    by (unfold data; rewrite length_firstn; lia).
  assert (Lp : length pub = Z.to_nat psz)
    by (unfold pub; rewrite length_firstn; unfold n in *; lia).
  assert (Lb : length blb = Z.to_nat bsz)
    by (unfold blb; rewrite length_skipn; unfold n in *; lia).
  assert (Hd : data = pub ++ blb) by (unfold pub, blb; now rewrite firstn_skipn).
  set (r := mkKeyRecord (load (buf s) 0 16) (load (buf s) 16 16) pub blb []
                        (load_int host (buf s) 36 2)).
  assert (Hps : pub_data_size r = psz) by (unfold pub_data_size, r; cbn; lia).
  assert (Hbs : blob_size r = bsz) by (unfold blob_size, r; cbn; lia).
  rewrite printkey_0_raw by exact buf_size. fold psz bsz.
  rewrite <- Hps, <- Hbs.
  rewrite (printkey_0_data_full i _ r (skipn (Z.to_nat n) (stream s))).
  - cbn [buf stream out err add_out]. rewrite Hps, Hbs. fold n.
    change (pub_data r) with pub. change (blob r) with blb.
    rewrite <- Hd.
    assert (Hst : store (buf s) 0 data = data ++ old).
    { rewrite store_0. unfold old. now rewrite Ld. }
    rewrite Hst. f_equal. f_equal.
    rewrite <- app_assoc. f_equal. unfold dump_key_data. cbn [fst snd].
    change (pub_data r) with pub. change (blob r) with blb.
    assert (E1 : load (data ++ old) psz (pad_len psz)
                 = firstn (Z.to_nat (pad_len psz)) (blb ++ old)).
    { rewrite Hd, <- app_assoc. rewrite load_app_r by lia.
      replace (psz - Z.of_nat (length pub)) with 0 by lia. reflexivity. }
    assert (E2 : load (data ++ old) n (pad_len bsz)
                 = firstn (Z.to_nat (pad_len bsz)) old).
    { rewrite load_app_r by lia.
      replace (n - Z.of_nat (length data)) with 0 by lia. reflexivity. }
    rewrite E1, E2. reflexivity.
  - exact buf_size.
  - cbn [stream add_out]. change (pub_data r) with pub.
    change (blob r) with blb.
    rewrite app_assoc, <- Hd. unfold data. now rewrite firstn_skipn.
  - unfold fits_buf, sizeof_buf. rewrite Hps, Hbs. split; [|lia].
    apply (round_up_4_le psz 256). lia.
  - unfold has_data. rewrite Hps, Hbs. fold n. lia.
Qed.

(** X4: where [printkey_0] leaves the buffer.  With sizes [psz] and [bsz]
    found in the key, at least one byte of data and all of it in the stream,
    the function returns 0 when [psz] plus [bsz] rounded up to a multiple of
    four is at most 1024, having taken exactly [psz + bsz] bytes off the
    stream and written nothing to stderr; when that sum exceeds 1024 it
    accesses memory outside the buffer (in the read of the data, or in the
    dump of the blob). *)
Theorem printkey_0_buffer_bound host i s :
  length (buf s) = 1024%nat ->
  let psz := load_int host (buf s) 32 2 in
  let bsz := load_int host (buf s) 34 2 in
  let n := psz + bsz in
  0 < n <= Z.of_nat (length (stream s)) ->
  (psz + round_up_4 bsz <= 1024 ->
   exists s', printkey_0 host i s = Ret 0 s' /\
              stream s' = skipn (Z.to_nat n) (stream s) /\ err s' = err s) /\
  (1024 < psz + round_up_4 bsz -> printkey_0 host i s = Undefined).
Proof.
  intros buf_size psz bsz n Hn. split; intros Hfit.
  - eexists. split; [now apply printkey_0_all_data|]. split; reflexivity.
  - pose proof (load_int_u16 host (buf s) 32) as Hp. fold psz in Hp.
    pose proof (load_int_u16 host (buf s) 34) as Hb. fold bsz in Hb.
    rewrite printkey_0_raw by exact buf_size. fold psz bsz.
    unfold printkey_0_data. fold n.
    set (data := firstn (Z.to_nat n) (stream s)).
    destruct (Z_le_gt_dec n 1024) as [Hle|Hgt].
    + rewrite (bind_Ret _ _ _ _ _
                 (fread_full 0 n (add_out s (key_header_dump host i (buf s)))
                    data (skipn (Z.to_nat n) (stream s))
                    ltac:(lia) ltac:(lia)
                    ltac:(cbn [stream add_out]; unfold data; now rewrite firstn_skipn)
                    ltac:(unfold data; rewrite length_firstn; lia)
                    ltac:(cbn [buf add_out]; lia))).
      cbn [Z.eqb Pos.eqb negb].
      assert (Lst : length (store (buf s) 0 data) = 1024%nat).
      { rewrite length_store; [exact buf_size|lia|].
        unfold data. rewrite length_firstn. lia. }
      rewrite bind_printf.
      rewrite bind_print_hex;
        [|lia|lia|cbn [buf add_out]; exact Lst
         |pose proof (round_up_4_le psz 256); unfold n in *; lia].
      rewrite bind_printf.
      unfold bind at 1.
      rewrite print_hex_outside; [reflexivity| | |
        |]; cbn [buf add_out]; rewrite ?Lst; unfold n in *; lia.
    + unfold bind, fread. cbn [buf stream add_out].
      replace (n =? 0) with false by (symmetry; apply Z.eqb_neq; lia).
      replace (0 + Z.min n (Z.of_nat (length (stream s)))
               <=? Z.of_nat (length (buf s))) with false
        by (symmetry; apply Z.leb_gt; lia).
      reflexivity.
Qed.

Lemma printkey_0_buffer_bound_witness :
  exists s',
    printkey_0 LittleEndian 0 (at_key legacy_record_A) = Ret 0 s' /\
    stream s' = skipn 3 [Byte.xaa; Byte.xbb; Byte.xcc] /\ err s' = [].
Proof.
  apply (printkey_0_buffer_bound LittleEndian 0 (at_key legacy_record_A));
    [reflexivity|vm_compute; split; [reflexivity|discriminate]
    |vm_compute; discriminate].
Defined.

(** X5: what the dump of the data shows beyond the data.  [printkey_0]
    reads pub_data and blob to the front of the buffer in one piece and
    dumps each in whole groups of four bytes: the dump of pub_data goes on
    into the first bytes of the blob (and past a short blob, into what the
    buffer held before), and the dump of the blob ends with the bytes that
    the buffer held at those offsets before the read, which belong to the
    fixed-size fields just printed or to an earlier key. *)
Theorem printkey_0_dump_of_data host i s :
  length (buf s) = 1024%nat ->
  let psz := load_int host (buf s) 32 2 in
  let bsz := load_int host (buf s) 34 2 in
  let n := psz + bsz in
  let data := firstn (Z.to_nat n) (stream s) in
  let pub := firstn (Z.to_nat psz) data in
  let blb := skipn (Z.to_nat psz) data in
  let old := skipn (Z.to_nat n) (buf s) in
  0 < n <= Z.of_nat (length (stream s)) ->
  psz + round_up_4 bsz <= 1024 ->
  exists s',
    printkey_0 host i s = Ret 0 s' /\
    buf s' = data ++ old /\
    out s' = out s ++ key_header_dump host i (buf s) ++
             [Printf "PS pub_data%d:\n" [Int i]] ++
             hex_dump (pub ++ firstn (Z.to_nat (pad_len psz)) (blb ++ old)) ++
             [Printf "PS blob%d:\n" [Int i]] ++
             hex_dump (blb ++ firstn (Z.to_nat (pad_len bsz)) old).
Proof.
  intros buf_size psz bsz n data pub blb old Hn Hfit.
  eexists. split; [now apply printkey_0_all_data|].
  split; reflexivity.
Qed.

Lemma printkey_0_dump_of_data_witness :
  exists s',
    printkey_0 LittleEndian 0 (at_key legacy_record_A) = Ret 0 s' /\
    buf s' = [Byte.xaa; Byte.xbb; Byte.xcc] ++ skipn 3 (buf (at_key legacy_record_A)) /\
    out s' = key_header_dump LittleEndian 0 (buf (at_key legacy_record_A)) ++
             [Printf "PS pub_data%d:\n" [Int 0]] ++
             hex_dump ([Byte.xaa; Byte.xbb] ++ [Byte.xcc; Byte.x00]) ++
             [Printf "PS blob%d:\n" [Int 0]] ++
             hex_dump ([Byte.xcc] ++ [Byte.x00; Byte.x00; Byte.x00]).
Proof.
  apply (printkey_0_dump_of_data LittleEndian 0 (at_key legacy_record_A));
    [reflexivity|vm_compute; split; [reflexivity|discriminate]
    |vm_compute; discriminate].
Defined.

(** ** No key of a store taken for Versioned is decoded *)

(** X7: a store whose first 21 bytes pass the test for the Versioned layout
    is never decoded, whatever its key count says and whatever follows those
    21 bytes: [inspect] returns 0 after the two lines that name the version
    and the number of keys ([printkey_1] does nothing), the bytes after the
    probe stay unread and nothing is written to stderr. *)
Theorem versioned_store_is_not_decoded host SRK s d rest :
  length (buf s) = 1024%nat ->
  length d = 21%nat -> stream s = d ++ rest ->
  looks_versioned host SRK d = true ->
  inspect host SRK s
  = Ret 0 (mkState (store (buf s) 0 d) rest
             (out s ++ [Printf "PS version:        1\n" [];
                        Printf "PS number of keys: %u\n"
                               [Int (host_val host (load d 1 4))]])
             (err s)).
Proof.
  intros Hb Ld Hs Hv.
  rewrite (inspect_probe host SRK s d rest Hs Ld Hb), Hv.
  rewrite version_1_print_spec
    by (cbn [buf]; rewrite length_store; [exact Hb|lia|lia]).
  unfold add_out. cbn [buf stream out err]. do 5 f_equal.
  rewrite store_0, Ld. now rewrite load_app_inside by lia.
Qed.

Lemma versioned_store_is_not_decoded_witness :
  inspect LittleEndian TSS_UUID_SRK (opened example_versioned_store)
  = Ret 0 (mkState (store (buf initial_state) 0 (firstn 21 example_versioned_store))
             (skipn 21 example_versioned_store)
             [Printf "PS version:        1\n" [];
              Printf "PS number of keys: %u\n" [Int 1]]
             []).
Proof.
  apply (versioned_store_is_not_decoded LittleEndian TSS_UUID_SRK
           (opened example_versioned_store)
           (firstn 21 example_versioned_store) (skipn 21 example_versioned_store));
    reflexivity.
Defined.

Lemma load_second_field (kc u p tail : list BYTE) :
  length kc = 4%nat -> length u = 16%nat -> (1 <= length p)%nat ->
  load (kc ++ u ++ p ++ tail) 5 16 = skipn 1 u ++ firstn 1 p.
Proof.
  intros Lkc Lu Lp.
  do 4 (destruct kc as [|? kc]; [discriminate|]).
  destruct kc; [|discriminate].
  do 16 (destruct u as [|? u]; [discriminate|]).
  destruct u; [|discriminate].
  destruct p; [cbn [length] in Lp; lia|]. reflexivity.
Qed.

(** X8: the two layouts are not told apart by the probe.  A Legacy store
    with at least one key whose first byte is 1, whose bytes 1..4 are not all
    zero and whose first identifier, from its second byte on, followed by the
    first byte of the parent identifier, spells the identifier of the storage
    root key, is taken for a Versioned store: none of its keys is dumped and
    the number of keys printed is read one byte off the key count. *)
Theorem legacy_store_taken_for_versioned host SRK s hdr r rs rest :
  length SRK = 16%nat ->
  length (buf s) = 1024%nat ->
  spec_decode_legacy host (stream s) = Some ((hdr, r :: rs), rest) ->
  nth_error (stream s) 0 = Some Byte.x01 ->
  host_val host (load (stream s) 1 4) <> 0 ->
  skipn 1 (uuid r) ++ firstn 1 (parent_uuid r) = SRK ->
  inspect host SRK s
  = Ret 0 (mkState (store (buf s) 0 (firstn 21 (stream s))) (skipn 21 (stream s))
             (out s ++ [Printf "PS version:        1\n" [];
                        Printf "PS number of keys: %u\n"
                               [Int (host_val host (load (stream s) 1 4))]])
             (err s)).
Proof.
  intros LS Hb Hd H0 Hk Hu. unfold spec_decode_legacy in Hd.
  destruct (take 4 (stream s)) as [[kc bs1]|] eqn:Ht; [|discriminate].
  destruct (spec_records _ _ bs1) as [[rs' rest']|] eqn:Hrs; [|discriminate].
  injection Hd as _ -> ->.
  destruct (Z.to_nat (host_val host kc)) as [|n]; [discriminate|].
  destruct (legacy_store_start host _ kc r rs bs1 rest n Ht Hrs)
    as (bs2 & Hst & L21 & Lkc & L17 & Hr & _).
  destruct (spec_legacy_record_Some _ _ _ _ Hr)
    as (psz & bsz & cf & Hbs1 & Lu & Lpu & _).
  apply take_Some in Ht; [|lia]. destruct Ht as [Hst' _].
  assert (Hlen : (21 <= length (stream s))%nat)
    by (rewrite Hst, length_app; lia).
  apply inspect_versioned; [exact Hb|exact Hlen|].
  apply looks_versioned_true; [exact LS|exact Hlen|].
  split; [exact H0|]. split; [exact Hk|].
  rewrite Hst', Hbs1. rewrite load_second_field by lia. exact Hu.
Qed.

Lemma legacy_store_taken_for_versioned_witness :
  well_formed_legacy LittleEndian legacy_store_like_versioned /\
  inspect LittleEndian TSS_UUID_SRK (opened legacy_store_like_versioned)
  = Ret 0 (mkState (store (buf initial_state) 0 (firstn 21 legacy_store_like_versioned))
             (skipn 21 legacy_store_like_versioned)
             [Printf "PS version:        1\n" [];
              Printf "PS number of keys: %u\n" [Int 16777216]]
             []).
Proof.
  split.
  - eexists _, _. vm_compute. reflexivity.
  - apply (legacy_store_taken_for_versioned LittleEndian TSS_UUID_SRK
             (opened legacy_store_like_versioned)
             (mkStoreHeader Legacy 1)
             (mkKeyRecord uuid_A uuid_A [Byte.xaa; Byte.xbb] [Byte.xcc] [] 0) [] []);
      try reflexivity.
    vm_compute. discriminate.
Defined.

(** ** Files shorter than the probe *)

(** X9: a file of fewer than 21 bytes, the empty file included, cannot be
    inspected in either layout: the run prints the line that names the file,
    the first read fails, one message goes to stderr and the exit status is
    255.  The well-formed stores without keys (4 bytes in the Legacy layout,
    5 in the Versioned one) are among these files. *)
Theorem file_shorter_than_the_probe host SRK fs prog name content :
  fs name = Some content ->
  (length content < 21)%nat ->
  main host SRK fs [prog; name] initial_state
  = Ret (-1) (mkState (store (buf initial_state) 0 content) []
                [Printf "PS filename: %s\n" [Str name]]
                [Printf "fread: %s\n" [StrError]]) /\
  run host SRK fs [prog; name] = Some 255.
Proof.
  intros Hf Hl.
  assert (E : main host SRK fs [prog; name] initial_state
              = Ret (-1) (mkState (store (buf initial_state) 0 content) []
                            [Printf "PS filename: %s\n" [Str name]]
                            [Printf "fread: %s\n" [StrError]])).
  { unfold main. cbn [length Z.of_nat Pos.of_succ_nat Pos.succ Z.eqb Pos.eqb negb nth].
    rewrite Hf. unfold bind at 1. rewrite bind_printf. unfold bind at 1.
    rewrite inspect_probe_short by (cbn [stream add_out]; auto).
    reflexivity. }
  split; [exact E|]. unfold run. rewrite E. reflexivity.
Qed.

Lemma file_shorter_than_the_probe_witness :
  main LittleEndian TSS_UUID_SRK (one_file "system.data" []) ["ps_inspect"; "system.data"]
       initial_state
  = Ret (-1) (mkState (store (buf initial_state) 0 []) []
                [Printf "PS filename: %s\n" [Str "system.data"]]
                [Printf "fread: %s\n" [StrError]]) /\
  run LittleEndian TSS_UUID_SRK (one_file "system.data" [])
      ["ps_inspect"; "system.data"] = Some 255.
Proof.
  apply (file_shorter_than_the_probe LittleEndian TSS_UUID_SRK
           (one_file "system.data" []) "ps_inspect" "system.data" []).
  - reflexivity.
  - cbn [length]. lia.
Defined.

(** ** What every run keeps

    The rules of [triple], then what they give for the functions of the
    inspector: with the buffer at its 1024 bytes, each of them ends or
    leaves the buffer, and a result of 0 goes with a silent stderr, a result
    of -1 with a message. *)

Lemma triple_ret {A} ub (P : state -> Prop) (a : A) (Q : A -> state -> Prop) :
  (forall s, P s -> Q a s) -> triple ub P (ret a) Q.
Proof. intros H s Hs. cbn. auto. Qed.

Lemma triple_bind {A B} ub (P : state -> Prop) (m : M A) (R : A -> state -> Prop)
    (k : A -> M B) (Q : B -> state -> Prop) :
  triple ub P m R -> (forall a, triple ub (R a) (k a) Q) -> triple ub P (bind m k) Q.
Proof.
  intros Hm Hk s Hs. specialize (Hm s Hs). unfold bind.
  destruct (m s) as [a s1| |]; auto. now apply Hk.
Qed.

Lemma triple_weaken {A} ub (P P' : state -> Prop) (m : M A) (Q Q' : A -> state -> Prop) :
  (forall s, P' s -> P s) -> (forall a s, Q a s -> Q' a s) ->
  triple ub P m Q -> triple ub P' m Q'.
Proof.
  intros HP HQ Hm s Hs. specialize (Hm s (HP s Hs)).
  destruct (m s); auto.
Qed.

(** A step that leaves the buffer's size and stderr alone. *)
Lemma triple_seq {A B} ub (P : state -> Prop) (m : M A) (k : M B)
    (Q : B -> state -> Prop) :
  triple ub P m (fun _ => P) -> triple ub P k Q -> triple ub P (m ;;; k) Q.
Proof. intros Hm Hk. eapply triple_bind; [exact Hm|]. intros a. exact Hk. Qed.

Lemma triple_printf e0 fmt args :
  triple True (calm e0) (printf fmt args) (fun _ => calm e0).
Proof. intros s Hs. exact Hs. Qed.

Lemma triple_fail e0 fmt args :
  triple True (calm e0) (PRINTERR fmt args ;;; ret (-1)) (reported e0).
Proof.
  intros s [Hb He]. subst e0. unfold bind, PRINTERR, ret.
  split; [exact Hb|]. right. split; [reflexivity|].
  exists (Printf fmt args), []. reflexivity.
Qed.

Lemma triple_rd e0 idx :
  triple True (calm e0) (rd idx) (fun _ => calm e0).
Proof.
  intros s Hs. unfold rd. destruct (_ && _); [|exact I].
  destruct (nth_error _ _); [exact Hs|exact I].
Qed.

Lemma triple_get e0 :
  triple True (calm e0) get (fun _ => calm e0).
Proof. intros s Hs. exact Hs. Qed.

Lemma triple_rd_int e0 host p n :
  0 <= n ->
  triple True (calm e0) (rd_int host p n)
         (fun x s => calm e0 s /\ 0 <= x < 256 ^ n).
Proof.
  intros Hn s Hs. unfold rd_int. destruct (_ && _); [|exact I].
  split; [exact Hs|]. unfold load_int. split; [apply host_val_nonneg|].
  eapply Z.lt_le_trans; [apply host_val_bound|].
  apply Z.pow_le_mono_r; [lia|]. pose proof (length_load_le (buf s) p n). lia.
Qed.

Lemma triple_memcpy e0 dst src n :
  0 <= dst -> 0 <= src -> 0 <= n ->
  triple True (calm e0) (memcpy dst src n) (fun _ => calm e0).
Proof.
  intros Hd Hsrc Hn s [Hb He]. unfold memcpy.
  destruct (_ && _) eqn:E; [|exact I].
  apply andb_prop in E. destruct E as [E1 E2].
  apply Z.leb_le in E1. apply Z.leb_le in E2.
  split; [|exact He]. cbn [buf]. rewrite length_store; [exact Hb|lia|].
  rewrite length_load; lia.
Qed.

(** [fread] keeps the size of the buffer; when it reports one member the
    request fitted into the buffer. *)
Lemma triple_fread e0 p n :
  0 <= p -> 0 <= n ->
  triple True (calm e0) (fread p n)
         (fun members s => calm e0 s /\ (members = 1 -> p + n <= 1024)).
Proof.
  intros Hp Hn s [Hb He]. unfold fread.
  destruct (n =? 0) eqn:E0.
  - split; [now split|]. discriminate.
  - destruct (_ <=? _) eqn:E; [|exact I]. apply Z.leb_le in E.
    split.
    + split; [|exact He]. cbn [buf]. rewrite length_store; [exact Hb|lia|].
      rewrite length_firstn. lia.
    + destruct (n <=? _) eqn:E1; [|discriminate]. apply Z.leb_le in E1. lia.
Qed.

Lemma triple_print_hex e0 p len :
  0 <= p <= 1024 -> 0 <= len ->
  triple True (calm e0) (print_hex p len) (fun _ => calm e0).
Proof.
  intros Hp Hlen s [Hb He].
  destruct (Z_le_gt_dec (p + round_up_4 len) 1024) as [Hfit|Hout].
  - rewrite print_hex_ok by lia. now split.
  - rewrite print_hex_outside by lia. exact I.
Qed.

Lemma reported_calm e0 s : calm e0 s -> reported e0 0 s.
Proof. intros [Hb He]. split; [exact Hb|]. left. now split. Qed.

(** A fact about the value handed on joins the hypotheses. *)
Lemma triple_assume {A} ub (P : state -> Prop) (fact : Prop) (m : M A)
    (Q : A -> state -> Prop) :
  (fact -> triple ub P m Q) -> triple ub (fun s => P s /\ fact) m Q.
Proof. intros H s [Hs Hf]. now apply H. Qed.

Ltac triple_steps :=
  repeat first
    [ apply triple_seq;
      [ first [ apply triple_printf | apply triple_rd
              | apply triple_print_hex; lia | apply triple_memcpy; lia ] | ]
    | eapply triple_bind; [apply triple_rd_int; lia|];
      intros ?; apply triple_assume; intros ?
    | eapply triple_bind; [apply triple_fread; lia|];
      intros ?; apply triple_assume; intros ? ].

Lemma triple_printkey_0 e0 host i :
  triple True (calm e0) (printkey_0 host i) (reported e0).
Proof.
  unfold printkey_0, sizeof_TSS_UUID, sizeof_UINT16.
  triple_steps.
  match goal with |- triple _ _ (if negb (?m =? 1) then _ else _) _ =>
    destruct (Z.eqb_spec m 1) as [Hm|Hm]; cbn [negb] end.
  - triple_steps. apply triple_ret. apply reported_calm.
  - apply triple_fail.
Qed.

Lemma triple_version_0_for e0 host : forall fuel i u32,
  0 <= i -> u32 < 4294967296 -> u32 - i <= Z.of_nat fuel ->
  triple True (calm e0) (version_0_for host fuel i u32) (reported e0).
Proof.
  induction fuel as [|fuel IH]; intros i u32 Hi Hu Hf.
  - cbn [version_0_for].
    replace (i <? u32) with false by (symmetry; apply Z.ltb_ge; lia).
    apply triple_ret. apply reported_calm.
  - cbn [version_0_for]. destruct (Z.ltb_spec i u32) as [Hlt|Hge].
    + unfold sizeof_TSS_UUID, sizeof_UINT16. triple_steps.
      match goal with |- triple _ _ (if negb (?m =? 1) then _ else _) _ =>
        destruct (Z.eqb_spec m 1) as [Hm|Hm]; cbn [negb] end.
      * eapply triple_bind; [apply triple_printkey_0|]. intros rc.
        destruct (Z.eqb_spec rc 0) as [->|Hrc]; cbn [negb].
        -- intros s [Hb [[_ He]|[Hne _]]]; [|discriminate].
           apply IH; [unfold wrap32| |rewrite wrap32_small by lia|now split]; try lia.
           apply Z.mod_pos_bound. lia.
        -- apply triple_ret. intros s [Hb [[Hz _]|Hm1]]; [contradiction|].
           split; [exact Hb|]. now right.
      * apply triple_fail.
    + apply triple_ret. apply reported_calm.
Qed.

Lemma triple_version_0_print e0 host :
  triple True (calm e0) (version_0_print host) (reported e0).
Proof.
  unfold version_0_print, sizeof_TSS_UUID, sizeof_UINT16, sizeof_UINT32.
  triple_steps.
  match goal with |- triple _ _ (if negb (?m =? 1) then _ else _) _ =>
    destruct (Z.eqb_spec m 1) as [Hm|Hm]; cbn [negb] end.
  - eapply triple_bind; [apply triple_printkey_0|]. intros rc.
    destruct (Z.eqb_spec rc 0) as [->|Hrc]; cbn [negb].
    + intros s [Hb [[_ He]|[Hne _]]]; [|discriminate].
      apply triple_version_0_for; [lia|lia|lia|now split].
    + intros s [Hb [[Hz _]|[_ (e & evs & He)]]]; [contradiction|].
      unfold bind, PRINTERR, ret. split; [exact Hb|]. right. split; [reflexivity|].
      exists e, (evs ++ [Printf "printkey_0 failed.\n" []]).
      cbn [err add_err]. rewrite He, <- app_assoc. reflexivity.
  - apply triple_fail.
Qed.

Lemma triple_version_1_print e0 host :
  triple True (calm e0) (version_1_print host) (reported e0).
Proof.
  intros s [Hb He]. rewrite version_1_print_spec by exact Hb.
  apply reported_calm. now split.
Qed.

Lemma triple_inspect e0 host SRK :
  triple True (calm e0) (inspect host SRK) (reported e0).
Proof.
  unfold inspect, sizeof_TSS_UUID, sizeof_UINT32.
  triple_steps.
  match goal with |- triple _ _ (if negb (?m =? 1) then _ else _) _ =>
    destruct (Z.eqb_spec m 1) as [Hm|Hm]; cbn [negb] end.
  - eapply triple_bind; [apply triple_rd|]. intros b0.
    destruct (b0 =? 1); [|apply triple_version_0_print].
    triple_steps.
    match goal with |- triple _ _ (if ?c then _ else _) _ => destruct c end;
      [apply triple_version_0_print|].
    eapply triple_bind; [apply triple_get|]. intros s0.
    match goal with |- triple _ _ (if ?c then _ else _) _ => destruct c end;
      [apply triple_version_0_print|apply triple_version_1_print].
  - apply triple_fail.
Qed.

#[local] Hint Resolve grows_version_0_for : grows.

Lemma grows_version_0_print host : grows (version_0_print host).
Proof. unfold version_0_print. grows_steps. Qed.

Lemma grows_version_1_for host : forall fuel i, grows (version_1_for host fuel i).
Proof.
  induction fuel as [|fuel IH]; intros i; cbn [version_1_for]; unfold printkey_1;
    grows_steps.
Qed.

Lemma grows_version_1_print host : grows (version_1_print host).
Proof. unfold version_1_print. grows_steps. apply grows_version_1_for. Qed.

#[local] Hint Resolve grows_version_0_print grows_version_1_print : grows.

Lemma grows_inspect host SRK : grows (inspect host SRK).
Proof. unfold inspect. grows_steps. Qed.

Lemma initial_state_calm : calm [] initial_state.
Proof. split; reflexivity. Qed.

(** The three ways [main] can go, by its arguments and the file system. *)
Lemma main_cases host SRK fs argv :
  (length argv <> 2%nat /\
   main host SRK fs argv initial_state
   = Ret (-1) (add_err initial_state
                 [Printf "usage: %s filename\n" [Str (nth 0 argv "")]])) \/
  (length argv = 2%nat /\ fs (nth 1 argv "") = None /\
   main host SRK fs argv initial_state
   = Ret (-1) (add_err initial_state
                 [Printf "fopen(%s): %s\n" [Str (nth 1 argv ""); StrError]])) \/
  (exists content,
     length argv = 2%nat /\ fs (nth 1 argv "") = Some content /\
     main host SRK fs argv initial_state
     = bind (inspect host SRK) (fun rc => ret rc)
         (add_out (opened content)
            [Printf "PS filename: %s\n" [Str (nth 1 argv "")]])).
Proof.
  unfold main. destruct (Nat.eq_dec (length argv) 2) as [E|E].
  - rewrite E. cbn [Z.of_nat Pos.of_succ_nat Pos.succ Z.eqb Pos.eqb negb].
    destruct (fs (nth 1 argv "")) as [content|] eqn:Ef.
    + right. right. exists content. repeat split; auto.
    + right. left. repeat split; auto.
  - left. split; [exact E|].
    replace (Z.of_nat (length argv) =? 2) with false
      by (symmetry; apply Z.eqb_neq; lia).
    reflexivity.
Qed.

(** X10: the result of a run that returns.  [main] returns 0 or -1, so the
    exit status is 0 or 255; it is 0 exactly when nothing was written to
    stderr, and only if a file was named and could be opened.  Stdout starts
    with the line that names the file when the file could be opened and
    stays empty otherwise. *)
Theorem main_exit_status host SRK fs argv rc s' :
  main host SRK fs argv initial_state = Ret rc s' ->
  ((rc = 0 /\ exit_status rc = 0 /\ err s' = []) \/
   (rc = -1 /\ exit_status rc = 255 /\ err s' <> [])) /\
  (rc = 0 -> length argv = 2%nat /\ fs (nth 1 argv "") <> None) /\
  (length argv = 2%nat -> fs (nth 1 argv "") <> None ->
   exists evs, out s' = Printf "PS filename: %s\n" [Str (nth 1 argv "")] :: evs) /\
  (length argv <> 2%nat \/ fs (nth 1 argv "") = None -> out s' = []).
Proof.
  intros Hm.
  destruct (main_cases host SRK fs argv)
    as [[Hl E]|[(Hl & Hf & E)|(content & Hl & Hf & E)]]; rewrite E in Hm.
  - injection Hm as <- <-. split; [|split; [|split]].
    + right. repeat split; discriminate.
    + discriminate.
    + intros Hl'. contradiction.
    + reflexivity.
  - injection Hm as <- <-. split; [|split; [|split]].
    + right. repeat split; discriminate.
    + discriminate.
    + intros _ Hf'. contradiction.
    + reflexivity.
  - unfold bind at 1 in Hm.
    pose proof (triple_inspect [] host SRK
                  (add_out (opened content)
                     [Printf "PS filename: %s\n" [Str (nth 1 argv "")]])
                  ltac:(split; reflexivity)) as H.
    destruct (inspect host SRK _) as [rc0 s0| |] eqn:Ei; try discriminate.
    injection Hm as <- <-.
    destruct (grows_inspect host SRK _ _ _ Ei) as [evs Hevs].
    split; [|split; [|split]].
    + destruct H as [_ [[-> He]|[-> (e & evs' & He)]]].
      * left. repeat split. exact He.
      * right. repeat split. rewrite He. discriminate.
    + intros _. split; [exact Hl|]. rewrite Hf. discriminate.
    + intros _ _. exists evs. rewrite Hevs. reflexivity.
    + intros [Hl'|Hf']; [contradiction|]. rewrite Hf in Hf'. discriminate.
Qed.

Lemma main_exit_status_witness :
  exists s',
    main LittleEndian TSS_UUID_SRK (one_file "system.data" example_legacy_store)
         ["ps_inspect"; "system.data"] initial_state = Ret 0 s' /\
    err s' = [] /\
    exists evs, out s' = Printf "PS filename: %s\n" [Str "system.data"] :: evs.
Proof.
  destruct (main LittleEndian TSS_UUID_SRK
              (one_file "system.data" example_legacy_store)
              ["ps_inspect"; "system.data"] initial_state) as [rc s'| |] eqn:E;
    [|vm_compute in E; discriminate|vm_compute in E; discriminate].
  assert (Hrc : rc = 0) by (vm_compute in E; now injection E as <- _).
  destruct (main_exit_status _ _ _ _ _ _ E) as ([(_ & _ & He)|(Hm1 & _)] & _ & Ho & _);
    [|lia].
  exists s'. split; [now rewrite Hrc|]. split; [exact He|].
  apply Ho; [reflexivity|vm_compute; discriminate].
Defined.

(** X11: no run of the utility goes on for ever.  Whatever the arguments,
    the files and their content, the byte order of the host and the
    identifier of the storage root key, [main] returns or accesses memory
    outside the buffer: the loops of [print_hex], [version_0_print] and
    [version_1_print] all end. *)
Theorem main_terminates host SRK fs argv :
  main host SRK fs argv initial_state <> Diverges.
Proof.
  destruct (main_cases host SRK fs argv)
    as [[_ E]|[(_ & _ & E)|(content & _ & _ & E)]]; rewrite E; try discriminate.
  unfold bind at 1.
  pose proof (triple_inspect [] host SRK
                (add_out (opened content)
                   [Printf "PS filename: %s\n" [Str (nth 1 argv "")]])
                ltac:(split; reflexivity)) as H.
  destruct (inspect host SRK _); [discriminate|discriminate|contradiction].
Qed.

(** ** Files that are too short to make the inspector leave its buffer *)

Lemma small_mono k k' s : k <= k' -> small k s -> small k' s.
Proof. intros H [Hb Hs]. split; [exact Hb|lia]. Qed.

Lemma small_nonneg {A} ub k (m : M A) (Q : A -> state -> Prop) :
  (0 <= k -> triple ub (small k) m Q) -> triple ub (small k) m Q.
Proof. intros H s Hs. apply H; [|exact Hs]. destruct Hs. lia. Qed.

Lemma strict_printf k fmt args :
  triple False (small k) (printf fmt args) (fun _ => small k).
Proof. intros s Hs. exact Hs. Qed.

Lemma strict_fail k fmt args :
  triple False (small k) (PRINTERR fmt args ;;; ret (-1)) (fun _ => small k).
Proof. intros s Hs. exact Hs. Qed.

Lemma strict_rd k idx :
  0 <= idx < 1024 -> triple False (small k) (rd idx) (fun _ => small k).
Proof.
  intros Hi s Hs. destruct Hs as [Hb Hk].
  destruct (nth_error (buf s) (Z.to_nat idx)) as [b|] eqn:E.
  - rewrite (rd_at s idx b) by (lia || exact E). now split.
  - apply nth_error_None in E. lia.
Qed.

Lemma strict_get k : triple False (small k) get (fun _ => small k).
Proof. intros s Hs. exact Hs. Qed.

Lemma strict_rd_int k host p n :
  0 <= p -> 0 <= n -> p + n <= 1024 ->
  triple False (small k) (rd_int host p n)
         (fun x s => small k s /\ 0 <= x < 256 ^ n).
Proof.
  intros Hp Hn Hpn s Hs. destruct Hs as [Hb Hk].
  rewrite rd_int_ok by lia. split; [now split|].
  split; [apply host_val_nonneg|].
  eapply Z.lt_le_trans; [apply host_val_bound|].
  apply Z.pow_le_mono_r; [lia|]. pose proof (length_load_le (buf s) p n). lia.
Qed.

Lemma strict_memcpy k dst src n :
  0 <= dst -> 0 <= src -> 0 <= n -> dst + n <= 1024 -> src + n <= 1024 ->
  triple False (small k) (memcpy dst src n) (fun _ => small k).
Proof.
  intros Hd Hsrc Hn Hdn Hsn s [Hb Hk].
  rewrite memcpy_ok by lia. split; [|exact Hk]. cbn [buf].
  rewrite length_store; [exact Hb|lia|]. rewrite length_load; lia.
Qed.

(** A read that reports one member has taken its [n] bytes off the stream. *)
Lemma strict_fread k p n :
  0 <= p -> 0 <= n -> p + Z.min n k <= 1024 ->
  triple False (small k) (fread p n)
         (fun members => small (if members =? 1 then k - n else k)).
Proof.
  intros Hp Hn Hfit s [Hb Hk]. unfold fread.
  destruct (Z.eqb_spec n 0) as [E0|E0].
  - cbn [Z.eqb]. now split.
  - destruct (Z.leb_spec (p + Z.min n (Z.of_nat (length (stream s))))
                         (Z.of_nat (length (buf s)))) as [E|E]; [|lia].
    destruct (Z.leb_spec n (Z.of_nat (length (stream s)))) as [E1|E1];
      cbn [Z.eqb Pos.eqb]; (split; cbn [buf stream];
        [rewrite length_store; [exact Hb|lia|rewrite length_firstn; lia]
        |rewrite length_skipn; lia]).
Qed.

Lemma strict_print_hex k p len :
  0 <= p -> 0 <= len -> p + len + 3 <= 1024 ->
  triple False (small k) (print_hex p len) (fun _ => small k).
Proof.
  intros Hp Hlen Hfit s [Hb Hk].
  pose proof (round_up_4_bounds len Hlen).
  rewrite print_hex_ok by lia. now split.
Qed.

Ltac strict_steps :=
  repeat first
    [ apply triple_seq;
      [ first [ apply strict_printf | apply strict_rd; lia
              | apply strict_print_hex; lia | apply strict_memcpy; lia ] | ]
    | eapply triple_bind; [apply strict_rd_int; lia|];
      intros ?; apply triple_assume; intros ? ].

Lemma strict_printkey_0 host i :
  triple False (small 1021) (printkey_0 host i) (fun _ => small 1021).
Proof.
  unfold printkey_0, sizeof_TSS_UUID, sizeof_UINT16.
  strict_steps.
  eapply triple_bind; [apply strict_fread; lia|]. intros members. cbn beta.
  destruct (Z.eqb_spec members 1) as [->|Hm]; cbn [negb Z.eqb Pos.eqb].
  - apply small_nonneg. intros Hn.
    apply triple_weaken with (P := small 1021) (Q := fun _ => small 1021);
      [intros s; apply small_mono; lia|auto|].
    strict_steps. apply triple_ret. auto.
  - apply strict_fail.
Qed.

Lemma strict_version_0_for host : forall fuel i u32,
  0 <= i -> u32 < 4294967296 -> u32 - i <= Z.of_nat fuel ->
  triple False (small 1021) (version_0_for host fuel i u32) (fun _ => small 1021).
Proof.
  induction fuel as [|fuel IH]; intros i u32 Hi Hu Hf.
  - cbn [version_0_for].
    replace (i <? u32) with false by (symmetry; apply Z.ltb_ge; lia).
    apply triple_ret. auto.
  - cbn [version_0_for]. destruct (Z.ltb_spec i u32) as [Hlt|Hge].
    + unfold sizeof_TSS_UUID, sizeof_UINT16.
      eapply triple_bind; [apply strict_fread; lia|]. intros members. cbn beta.
      apply triple_weaken with (P := small 1021) (Q := fun _ => small 1021);
        [intros s; apply small_mono; destruct (members =? 1); lia|auto|].
      destruct (Z.eqb_spec members 1) as [->|Hm]; cbn [negb Z.eqb Pos.eqb].
      * eapply triple_bind; [apply strict_printkey_0|]. intros rc.
        destruct (Z.eqb_spec rc 0) as [->|Hrc]; cbn [negb].
        -- apply IH; [unfold wrap32| |rewrite wrap32_small by lia]; try lia.
           apply Z.mod_pos_bound. lia.
        -- apply triple_ret. auto.
      * apply strict_fail.
    + apply triple_ret. auto.
Qed.

Lemma strict_version_0_print host :
  triple False (small 1042) (version_0_print host) (fun _ => small 1042).
Proof.
  unfold version_0_print, sizeof_TSS_UUID, sizeof_UINT16, sizeof_UINT32.
  strict_steps.
  eapply triple_bind; [apply strict_fread; lia|]. intros members. cbn beta.
  destruct (Z.eqb_spec members 1) as [->|Hm]; cbn [negb Z.eqb Pos.eqb].
  - apply triple_weaken with (P := small 1021) (Q := fun _ => small 1021);
      [intros s; apply small_mono; lia|intros ? s; apply small_mono; lia|].
    eapply triple_bind; [apply strict_printkey_0|]. intros rc.
    destruct (Z.eqb_spec rc 0) as [->|Hrc]; cbn [negb].
    + apply strict_version_0_for; lia.
    + apply strict_fail.
  - apply strict_fail.
Qed.

Lemma strict_version_1_print k host :
  triple False (small k) (version_1_print host) (fun _ => small k).
Proof.
  intros s [Hb Hk]. rewrite version_1_print_spec by exact Hb. now split.
Qed.

Lemma strict_inspect host SRK :
  triple False (small 1063) (inspect host SRK) (fun _ => small 1063).
Proof.
  unfold inspect, sizeof_TSS_UUID, sizeof_UINT32.
  eapply triple_bind; [apply strict_fread; lia|]. intros members. cbn beta.
  destruct (Z.eqb_spec members 1) as [->|Hm]; cbn [negb Z.eqb Pos.eqb];
    [|apply strict_fail].
  apply triple_weaken with (P := small 1042) (Q := fun _ => small 1042);
    [intros s; apply small_mono; lia|intros ? s; apply small_mono; lia|].
  eapply triple_bind; [apply strict_rd; lia|]. intros b0.
  destruct (b0 =? 1); [|apply strict_version_0_print].
  strict_steps.
  match goal with |- triple _ _ (if ?c then _ else _) _ => destruct c end;
    [apply strict_version_0_print|].
  eapply triple_bind; [apply strict_get|]. intros s0.
  match goal with |- triple _ _ (if ?c then _ else _) _ => destruct c end;
    [apply strict_version_0_print|apply strict_version_1_print].
Qed.

(** X12: a file of at most 1063 bytes never makes the inspector leave its
    buffer: whatever such a file holds, the run returns.  The bound is
    sharp: on a Legacy store of 1064 bytes whose one key has 1021 bytes of
    pub_data and one byte of blob, the dump of the blob reads past the end of
    the buffer. *)
Theorem short_files_stay_inside_the_buffer host SRK fs argv :
  ((forall content, fs (nth 1 argv "") = Some content ->
                    (length content <= 1063)%nat) ->
   exists rc s', main host SRK fs argv initial_state = Ret rc s') /\
  (length legacy_store_1064 = 1064%nat /\
   main LittleEndian TSS_UUID_SRK (one_file "system.data" legacy_store_1064)
        ["ps_inspect"; "system.data"] initial_state = Undefined).
Proof.
  split; [|split; vm_compute; reflexivity].
  intros Hshort.
  destruct (main_cases host SRK fs argv)
    as [[_ E]|[(_ & _ & E)|(content & _ & Hf & E)]]; rewrite E; eauto.
  unfold bind at 1.
  pose proof (strict_inspect host SRK
                (add_out (opened content)
                   [Printf "PS filename: %s\n" [Str (nth 1 argv "")]])) as H.
  destruct (inspect host SRK _) as [rc s'| |].
  - cbn. eauto.
  - exfalso. apply H. split; [reflexivity|]. cbn [stream add_out opened].
    specialize (Hshort content Hf). lia.
  - exfalso. apply H. split; [reflexivity|]. cbn [stream add_out opened].
    specialize (Hshort content Hf). lia.
Qed.

Lemma short_files_stay_inside_the_buffer_witness :
  exists rc s',
    main LittleEndian TSS_UUID_SRK (one_file "system.data" example_legacy_store)
         ["ps_inspect"; "system.data"] initial_state = Ret rc s'.
Proof.
  apply (short_files_stay_inside_the_buffer LittleEndian TSS_UUID_SRK
           (one_file "system.data" example_legacy_store)
           ["ps_inspect"; "system.data"]).
  intros content Hf. vm_compute in Hf. injection Hf as <-.
  apply Nat.leb_le. vm_compute. reflexivity.
Defined.

(** ** The same program on a longer file

    Two runs of the inspector, one on a file and one on the same file with
    more bytes at its end, go the same way as long as the reads of the first
    find their bytes; from the first short read on, the first run only
    reports its failure and the second only adds to what was printed. *)

Lemma steady_ret {A} (a : A) : steady (ret a).
Proof. intros more s. reflexivity. Qed.

Lemma steady_bind {A B} (m : M A) (k : A -> M B) :
  steady m -> (forall a, steady (k a)) -> steady (bind m k).
Proof.
  intros Hm Hk more s. unfold bind. rewrite Hm.
  destruct (m s) as [a s1| |]; cbn [extend_outcome]; auto. apply Hk.
Qed.

Lemma steady_printf fmt args : steady (printf fmt args).
Proof. intros more s. reflexivity. Qed.

Lemma steady_PRINTERR fmt args : steady (PRINTERR fmt args).
Proof. intros more s. reflexivity. Qed.

Lemma steady_rd idx : steady (rd idx).
Proof.
  intros more s. unfold rd. cbn [buf extend].
  destruct (_ && _); [|reflexivity]. destruct (nth_error _ _); reflexivity.
Qed.

Lemma steady_rd_int host p n : steady (rd_int host p n).
Proof.
  intros more s. unfold rd_int. cbn [buf extend]. destruct (_ && _); reflexivity.
Qed.

Lemma steady_memcpy dst src n : steady (memcpy dst src n).
Proof.
  intros more s. unfold memcpy. cbn [buf extend]. destruct (_ && _); reflexivity.
Qed.

Lemma steady_diverges {A} : steady (@diverges A).
Proof. intros more s. reflexivity. Qed.

Create HintDb steady.

#[local] Hint Resolve steady_ret steady_printf steady_PRINTERR steady_rd
  steady_rd_int steady_memcpy steady_diverges : steady.

Ltac steady_steps :=
  repeat first
    [ solve [auto with steady]
    | apply steady_bind; [|intros ?]
    | match goal with |- steady (if ?c then _ else _) => destruct c end ].

Lemma steady_print_hex_for : forall fuel p len i j, steady (print_hex_for fuel p len i j).
Proof.
  induction fuel as [|fuel IH]; intros p len i j; cbn [print_hex_for]; steady_steps.
Qed.

Lemma steady_print_hex_while : forall fuel p len i, steady (print_hex_while fuel p len i).
Proof.
  induction fuel as [|fuel IH]; intros p len i; cbn [print_hex_while]; steady_steps.
  apply steady_print_hex_for.
Qed.

Lemma steady_print_hex p len : steady (print_hex p len).
Proof. apply steady_print_hex_while. Qed.

#[local] Hint Resolve steady_print_hex : steady.

Lemma steady_version_1_for host : forall fuel i, steady (version_1_for host fuel i).
Proof.
  induction fuel as [|fuel IH]; intros i; cbn [version_1_for]; unfold printkey_1;
    steady_steps.
Qed.

Lemma steady_version_1_print host : steady (version_1_print host).
Proof. unfold version_1_print. steady_steps. apply steady_version_1_for. Qed.

Lemma steady_monotone {A} (failed : A -> bool) (m : M A) :
  steady m -> monotone failed m.
Proof.
  intros Hm more s. rewrite Hm. destruct (m s); cbn; auto.
Qed.

Lemma monotone_bind_steady {A B} (failed : B -> bool) (m : M A) (k : A -> M B) :
  steady m -> (forall a, monotone failed (k a)) -> monotone failed (bind m k).
Proof.
  intros Hm Hk more s. unfold bind. rewrite Hm.
  destruct (m s) as [a s1| |]; cbn [extend_outcome follows]; auto. apply Hk.
Qed.

(** The rule for a step that may fail: the rest of the program is monotone
    after a success, hands a failure on quietly, and never takes back what
    was printed. *)
Lemma monotone_bind {A B} (fA : A -> bool) (fB : B -> bool) (m : M A)
    (k : A -> M B) :
  monotone fA m ->
  (forall a, fA a = false -> monotone fB (k a)) ->
  (forall a, fA a = true -> quiet fB (k a)) ->
  (forall a, grows (k a)) ->
  monotone fB (bind m k).
Proof.
  intros Hm Hok Hfail Hgrows more s. specialize (Hm more s). unfold bind.
  destruct (m s) as [a s1| |]; cbn [follows] in *; auto.
  destruct Hm as [Hsync|[Hf Hlate]].
  - rewrite Hsync. destruct (fA a) eqn:Ea.
    + destruct (k a s1) as [b s1'| |] eqn:E1; cbn [follows]; auto.
      destruct (Hfail a Ea _ _ _ E1) as [Hb Ho]. right. split; [exact Hb|].
      destruct (k a (extend more s1)) as [b2 s2'| |] eqn:E2; auto.
      destruct (Hgrows a _ _ _ E2) as [evs Hevs]. exists evs.
      rewrite Hevs, Ho. reflexivity.
    + apply (Hok a Ea more s1).
  - destruct (k a s1) as [b s1'| |] eqn:E1; cbn [follows]; auto.
    destruct (Hfail a Hf _ _ _ E1) as [Hb Ho]. right. split; [exact Hb|].
    destruct (m (extend more s)) as [a2 s2| |]; auto.
    destruct Hlate as [evs0 Hevs0].
    destruct (k a2 s2) as [b2 s2'| |] eqn:E2; auto.
    destruct (Hgrows a2 _ _ _ E2) as [evs Hevs]. exists (evs0 ++ evs).
    rewrite Hevs, Hevs0, Ho, app_assoc. reflexivity.
Qed.

Lemma firstn_app_le {A} n (l more : list A) :
  (n <= length l)%nat -> firstn n (l ++ more) = firstn n l.
Proof.
  intros H. rewrite firstn_app. replace (n - length l)%nat with 0%nat by lia.
  cbn [firstn]. apply app_nil_r.
Qed.

Lemma skipn_app_le {A} n (l more : list A) :
  (n <= length l)%nat -> skipn n (l ++ more) = skipn n l ++ more.
Proof.
  intros H. rewrite skipn_app. replace (n - length l)%nat with 0%nat by lia.
  reflexivity.
Qed.

(** A read that finds its bytes finds the same bytes on the longer stream; a
    read that falls short reports no member. *)
Lemma monotone_fread p n : monotone no_member (fread p n).
Proof.
  intros more s. unfold fread. cbn [buf stream extend out].
  destruct (n =? 0) eqn:E0; [left; reflexivity|].
  rewrite length_app, Nat2Z.inj_add.
  set (avail := Z.of_nat (length (stream s))).
  set (extra := Z.of_nat (length more)).
  destruct (Z.leb_spec n avail) as [Hfull|Hshort].
  - replace (Z.min n avail) with n by lia.
    replace (Z.min n (avail + extra)) with n by lia.
    destruct (p + n <=? Z.of_nat (length (buf s))); cbn [follows]; auto.
    replace (n <=? avail + extra) with true by (symmetry; apply Z.leb_le; lia).
    left. unfold extend. cbn [buf stream out err].
    assert (Hn : (Z.to_nat n <= length (stream s))%nat) by (unfold avail in *; lia).
    now rewrite firstn_app_le, skipn_app_le by exact Hn.
  - destruct (p + Z.min n avail <=? Z.of_nat (length (buf s))); cbn [follows]; auto.
    right. split; [reflexivity|].
    destruct (p + Z.min n (avail + extra) <=? Z.of_nat (length (buf s))); auto.
    exists []. cbn [out]. now rewrite app_nil_r.
Qed.

Lemma quiet_fail fmt args : quiet nonzero (PRINTERR fmt args ;;; ret (-1)).
Proof. intros s a s' H. injection H as <- <-. split; reflexivity. Qed.

Lemma quiet_ret rc : nonzero rc = true -> quiet nonzero (ret rc).
Proof. intros Hrc s a s' H. injection H as <- <-. split; [exact Hrc|reflexivity]. Qed.

Ltac monotone_steps :=
  repeat (apply monotone_bind_steady; [solve [auto with steady]|intros ?]).

(** The step [if negb (members =? 1) then ... fail ... else rest] after a
    read. *)
Lemma monotone_after_fread p n fmt args (rest : M Z) :
  monotone nonzero rest -> grows rest ->
  monotone nonzero
    (members <- fread p n ;;
     if negb (members =? 1) then PRINTERR fmt args ;;; ret (-1) else rest).
Proof.
  intros Hrest Hgrows.
  apply (monotone_bind no_member nonzero); [apply monotone_fread| | |].
  - intros a Ha. unfold no_member in Ha. rewrite Ha. exact Hrest.
  - intros a Ha. unfold no_member in Ha. rewrite Ha. apply quiet_fail.
  - intros a. destruct (negb (a =? 1)); [|exact Hgrows]. grows_steps.
Qed.

Lemma monotone_printkey_0 host i : monotone nonzero (printkey_0 host i).
Proof.
  unfold printkey_0. monotone_steps.
  apply (monotone_bind no_member nonzero); [apply monotone_fread| | |].
  - intros m1 Ha. unfold no_member in Ha. rewrite Ha.
    apply steady_monotone. steady_steps.
  - intros x Ha. unfold no_member in Ha. rewrite Ha. apply quiet_fail.
  - intros m1. grows_steps.
Qed.

Lemma monotone_version_0_for host : forall fuel i u32,
  monotone nonzero (version_0_for host fuel i u32).
Proof.
  induction fuel as [|fuel IH]; intros i u32; cbn [version_0_for];
    (destruct (i <? u32); [|apply steady_monotone; steady_steps]).
  - apply steady_monotone; steady_steps.
  - apply monotone_after_fread.
    + apply (monotone_bind nonzero nonzero); [apply monotone_printkey_0| | |].
      * intros x Ha. unfold nonzero in Ha. rewrite Ha. apply IH.
      * intros x Ha. pose proof Ha as Ha'. unfold nonzero in Ha'. rewrite Ha'.
        now apply quiet_ret.
      * intros x. destruct (negb (x =? 0)); [grows_steps|apply grows_version_0_for].
    + grows_steps.
Qed.

Lemma monotone_version_0_print host : monotone nonzero (version_0_print host).
Proof.
  unfold version_0_print. monotone_steps.
  apply monotone_after_fread.
  - apply (monotone_bind nonzero nonzero); [apply monotone_printkey_0| | |].
    + intros x Ha. unfold nonzero in Ha. rewrite Ha. apply monotone_version_0_for.
    + intros x Ha. unfold nonzero in Ha. rewrite Ha. apply quiet_fail.
    + intros x. grows_steps.
  - grows_steps.
Qed.

Lemma monotone_get {B} (failed : B -> bool) (k : state -> M B) :
  (forall s0, monotone failed (k s0)) ->
  (forall more s0, k (extend more s0) = k s0) ->
  monotone failed (bind get k).
Proof.
  intros Hk Hsame more s. unfold bind, get. rewrite Hsame. apply Hk.
Qed.

Lemma monotone_inspect host SRK : monotone nonzero (inspect host SRK).
Proof.
  unfold inspect. apply monotone_after_fread; [|grows_steps].
  monotone_steps.
  match goal with |- monotone _ (if ?c then _ else _) => destruct c end;
    [|apply monotone_version_0_print].
  monotone_steps.
  match goal with |- monotone _ (if ?c then _ else _) => destruct c end;
    [apply monotone_version_0_print|].
  apply monotone_get; [|reflexivity].
  intros s0.
  match goal with |- monotone _ (if ?c then _ else _) => destruct c end;
    [apply monotone_version_0_print
    |apply steady_monotone; apply steady_version_1_print].
Qed.

(** X13: the inspector on a longer file.  When [inspect] returns 0 on a
    file it returns 0 on every file that starts with the same bytes, with
    the same output, and leaves the added bytes unread: what follows the
    keys it dumps is ignored.  When it fails on a file, whatever it printed
    on stdout before the failure is the beginning of what it prints on any
    file that starts with the same bytes. *)
Theorem inspect_on_a_longer_file host SRK s more rc s' :
  inspect host SRK s = Ret rc s' ->
  (rc = 0 -> inspect host SRK (extend more s) = Ret 0 (extend more s')) /\
  (forall rc2 s2, inspect host SRK (extend more s) = Ret rc2 s2 ->
                  exists evs, out s2 = out s' ++ evs).
Proof.
  intros H. pose proof (monotone_inspect host SRK more s) as Hf.
  rewrite H in Hf. cbn [follows] in Hf. destruct Hf as [Hsync|[Hfail Hlate]].
  - split.
    + intros ->. exact Hsync.
    + intros rc2 s2 H2. rewrite Hsync in H2. injection H2 as _ <-.
      exists []. cbn [out extend]. now rewrite app_nil_r.
  - split.
    + intros ->. discriminate.
    + intros rc2 s2 H2. rewrite H2 in Hlate. exact Hlate.
Qed.

Lemma inspect_on_a_longer_file_witness :
  exists s',
    inspect LittleEndian TSS_UUID_SRK (opened example_legacy_store) = Ret 0 s' /\
    inspect LittleEndian TSS_UUID_SRK (opened (example_legacy_store ++ [Byte.xff]))
    = Ret 0 (extend [Byte.xff] s').
Proof.
  destruct (inspect LittleEndian TSS_UUID_SRK (opened example_legacy_store))
    as [rc s'| |] eqn:E;
    [|vm_compute in E; discriminate|vm_compute in E; discriminate].
  assert (Hrc : rc = 0) by (vm_compute in E; now injection E as <- _).
  subst rc. exists s'. split; [reflexivity|].
  apply (inspect_on_a_longer_file LittleEndian TSS_UUID_SRK
           (opened example_legacy_store) [Byte.xff] 0 s' E).
  reflexivity.
Defined.

(** ** The thread pool *)






































